(** * Adaptive chess engine orchestrator: a shallow embedding

    The development embeds the [ChessEngine] class of [src/lib/chessEngine.ts]
    and [analyzeMoveQuality] of [src/components/chess/TrainingLogs.tsx].

    Conventions of the embedding.
    - A JavaScript [number] that holds a rating, an accuracy, a random draw
      or a delay is an exact rational ([Q]); [NaN] and the infinities are
      outside the model.  Scores and depths come out of [parseInt] applied
      to a run of digits and are integers ([Z]).
    - [Math.random()] is an explicit argument: a draw [r] with [0 <= r < 1].
    - The engine object is a record; its methods thread it explicitly through
      a small state monad.  The worker behind [this.stockfish] is the record
      of its [onmessage] slot and of the commands posted to it.
    - A command line built by a template literal is kept structured
      ([Command]), so that its fields can be compared. *)

From Stdlib Require Import ZArith QArith Qround Lia Lqa.
From Stdlib Require Import Bool List String Ascii DecimalString DecimalPos.
Import ListNotations.

Local Open Scope Z_scope.

(** ** Numbers *)

(** [a < b] on numbers, as a boolean. *)
Definition Qltb (a b : Q) : bool := negb (Qle_bool b a).

(** The two outcomes of [Qltb a b], with what each one tells. *)
Variant Qltb_cases (a b : Q) : bool -> Prop :=
| Qltb_lt : (a < b)%Q -> Qltb_cases a b true
| Qltb_ge : (b <= a)%Q -> Qltb_cases a b false.

(** [Math.min]. *)
Definition Math_min (a b : Q) : Q := if Qle_bool a b then a else b.

(** [Math.max]. *)
Definition Math_max (a b : Q) : Q := if Qle_bool a b then b else a.

(** [Math.floor(r * n)] used as an array index, for a length [n]. *)
Definition floor_index (r : Q) (n : nat) : nat :=
  Z.to_nat (Qfloor (r * inject_Z (Z.of_nat n))).

(** A value [Math.random()] can return. *)
Definition is_draw (r : Q) : Prop := (0 <= r /\ r < 1)%Q.


(** The decimal text of an integer, as a template literal or [+] with a
    string prints it. *)
Definition toString (z : Z) : string := NilZero.string_of_int (Z.to_int z).

(** ** TrainingLogs.tsx *)

Module TrainingLogs.

(** [LogEntry['type']]. *)
Inductive LogType : Set :=
| move | blunder | mistake | inaccuracy | good | excellent | brilliant.

Record Quality : Set := { type : LogType; explanation : string }.

Definition analyzeMoveQuality (prevEval currentEval : Z) (isPlayerMove : bool)
  : Quality :=
  let evalChange :=
    if isPlayerMove then currentEval - prevEval else prevEval - currentEval in
  if evalChange >? 200 then
    {| type := brilliant;
       explanation := "Brilliant move! Significant advantage gained." |}
  else if evalChange >? 100 then
    {| type := excellent; explanation := "Excellent move! Clear improvement." |}
  else if evalChange >? 0 then
    {| type := good;
       explanation := "Good move, maintaining or improving position." |}
  else if evalChange >? -50 then
    {| type := move; explanation := "Reasonable move." |}
  else if evalChange >? -100 then
    {| type := inaccuracy;
       explanation := "Inaccuracy. A better move was available." |}
  else if evalChange >? -200 then
    {| type := mistake; explanation := "Mistake! This loses some advantage." |}
  else
    {| type := blunder;
       explanation := "Blunder! This significantly worsens the position." |}.

(** The signed change [analyzeMoveQuality] classifies. *)
Definition evalChange (prevEval currentEval : Z) (isPlayerMove : bool) : Z :=
  if isPlayerMove then currentEval - prevEval else prevEval - currentEval.

(** [LogEntry['player']]. *)
Inductive Player : Set := white | black | engine.

(** [LogEntry], without [id] and [timestamp], which [createLogEntry] takes
    from the clock and the random source. *)
Record LogEntry : Set := {
  moveNumber : Z;
  player : Player;
  entryMove : string;
  san : string;
  entryEvaluation : option Z;
  entryType : LogType;
  entryExplanation : option string;
  engineSuggestion : option string;
  wasDeliberate : option bool
}.

Definition LogType_eqb (a b : LogType) : bool :=
  match a, b with
  | move, move | blunder, blunder | mistake, mistake
  | inaccuracy, inaccuracy | good, good | excellent, excellent
  | brilliant, brilliant => true
  | _, _ => false
  end.

(** [logs.slice(-50).reverse()]: the last 50 entries, most recent first. *)
Definition recentLogs (logs : list LogEntry) : list LogEntry :=
  rev (skipn (List.length logs - 50) logs).

(** The [stats] object of the [TrainingLogs] component. *)
Record Stats : Set := {
  totalMoves : nat;
  blunders : nat;
  mistakes : nat;
  inaccuracies : nat;
  goodMoves : nat
}.

Definition count (t : LogType) (logs : list LogEntry) : nat :=
  List.length (filter (fun log => LogType_eqb (entryType log) t) logs).

Definition stats (logs : list LogEntry) : Stats :=
  {| totalMoves := count move logs;
     blunders := count blunder logs;
     mistakes := count mistake logs;
     inaccuracies := count inaccuracy logs;
     goodMoves :=
       List.length
         (filter (fun log =>
                    existsb (LogType_eqb (entryType log))
                      [good; excellent; brilliant]) logs) |}.


End TrainingLogs.

(** ** Scanning engine output: the regular expressions of chessEngine.ts *)

Module Regexp.

Local Open Scope string_scope.

Definition ascii_in (lo hi : nat) (c : ascii) : bool :=
  let n := nat_of_ascii c in (lo <=? n)%nat && (n <=? hi)%nat.

(** [\d] *)
Definition is_digit (c : ascii) : bool := ascii_in 48 57 c.

(** [\w], that is [[A-Za-z0-9_]] *)
Definition is_word (c : ascii) : bool :=
  is_digit c || ascii_in 65 90 c || ascii_in 97 122 c || Ascii.eqb c "_".

(** What follows the literal [p] when [s] begins with it. *)
Fixpoint strip_prefix (p s : string) : option string :=
  match p, s with
  | EmptyString, _ => Some s
  | String a p', String b s' =>
      if Ascii.eqb a b then strip_prefix p' s' else None
  | String _ _, EmptyString => None
  end.

(** [message.startsWith(p)] *)
Definition startsWith (message p : string) : bool :=
  match strip_prefix p message with
  | Some _ => true
  | None => false
  end.

(** The longest run of characters of class [f] at the head of [s]. *)
Fixpoint take_while (f : ascii -> bool) (s : string) : string :=
  match s with
  | String c s' => if f c then String c (take_while f s') else EmptyString
  | EmptyString => EmptyString
  end.

(** A greedy, non-empty run: [\d+] or [\w+] anchored at the head of [s]. *)
Definition run1 (f : ascii -> bool) (s : string) : option string :=
  match take_while f s with
  | EmptyString => None
  | r => Some r
  end.

(** [-?\d+] anchored at the head of [s]: the sign is tried first, and given
    up when no digit follows it. *)
Definition signed_run1 (s : string) : option string :=
  match s with
  | String "-" s' =>
      match run1 is_digit s' with
      | Some ds => Some (String "-" ds)
      | None => run1 is_digit s
      end
  | _ => run1 is_digit s
  end.

(** The leftmost position at which the anchored matcher [m] succeeds. *)
Fixpoint search {A : Type} (m : string -> option A) (s : string) : option A :=
  match m s with
  | Some a => Some a
  | None =>
      match s with
      | String _ s' => search m s'
      | EmptyString => None
      end
  end.

(** The capture group of [lit(group)] at its leftmost match in [s]. *)
Definition capture_after (lit : string) (group : string -> option string)
  (s : string) : option string :=
  search (fun t => match strip_prefix lit t with
                   | Some rest => group rest
                   | None => None
                   end) s.

(** [message.match(/depth (\d+)/)] *)
Definition match_depth : string -> option string :=
  capture_after "depth " (run1 is_digit).

(** [message.match(/score cp (-?\d+)/)] *)
Definition match_score_cp : string -> option string :=
  capture_after "score cp " signed_run1.

(** [message.match(/bestmove (\w+)/)] *)
Definition match_bestmove : string -> option string :=
  capture_after "bestmove " (run1 is_word).

(** The score field of an info line when it is a distance to mate,
    [score mate N]. *)
Definition match_score_mate : string -> option string :=
  capture_after "score mate " signed_run1.

(** A progress line whose score is a distance to mate and not a number of
    centipawns. *)
Definition mate_line (message : string) : Prop :=
  startsWith message "info depth" = true /\
  match_score_mate message <> None /\
  match_score_cp message = None.

Definition digit_value (c : ascii) : Z := Z.of_nat (nat_of_ascii c) - 48.

Fixpoint parse_digits (acc : Z) (s : string) : Z :=
  match s with
  | String c s' =>
      if is_digit c then parse_digits (10 * acc + digit_value c) s' else acc
  | EmptyString => acc
  end.

(** [parseInt] on a capture group of [\d+] or [-?\d+]; on such input it
    never yields [NaN]. *)
Definition parseInt (s : string) : Z :=
  match s with
  | String "-" s' => - parse_digits 0 s'
  | _ => parse_digits 0 s
  end.

(** Every character of [s] is of class [f]. *)
Fixpoint all_chars (f : ascii -> bool) (s : string) : bool :=
  match s with
  | String c s' => f c && all_chars f s'
  | EmptyString => true
  end.



(** What follows a field of a line: nothing, or a space and the rest. *)
Definition field_end (tail : string) : Prop :=
  tail = "" \/ exists rest : string, tail = String " " rest.

End Regexp.

(** ** chessEngine.ts: data *)

Module ChessEngine.

Import Regexp.
Local Open Scope string_scope.
Local Open Scope Q_scope.

Record EngineConfig : Set := {
  eloRating : Q;
  skillLevel : Q;
  contempt : Q;
  moveOverhead : Q;
  nodesPerMove : Q;
  timePerMove : Q;
  accuracy : Q
}.

(** [Partial<EngineConfig>]: a field is present or left out. *)
Record PartialConfig : Set := {
  eloRating' : option Q;
  skillLevel' : option Q;
  contempt' : option Q;
  moveOverhead' : option Q;
  nodesPerMove' : option Q;
  timePerMove' : option Q;
  accuracy' : option Q
}.

Definition emptyPartial : PartialConfig :=
  {| eloRating' := None; skillLevel' := None; contempt' := None;
     moveOverhead' := None; nodesPerMove' := None; timePerMove' := None;
     accuracy' := None |}.

Definition override (old : Q) (new : option Q) : Q :=
  match new with Some v => v | None => old end.

(** The object spread [{ ...c, ...p }]. *)
Definition spread (c : EngineConfig) (p : PartialConfig) : EngineConfig :=
  {| eloRating := override (eloRating c) (eloRating' p);
     skillLevel := override (skillLevel c) (skillLevel' p);
     contempt := override (contempt c) (contempt' p);
     moveOverhead := override (moveOverhead c) (moveOverhead' p);
     nodesPerMove := override (nodesPerMove c) (nodesPerMove' p);
     timePerMove := override (timePerMove c) (timePerMove' p);
     accuracy := override (accuracy c) (accuracy' p) |}.

(** The defaults of the constructor. *)
Definition defaultConfig : EngineConfig :=
  {| eloRating := 1500; skillLevel := 10; contempt := 0; moveOverhead := 100;
     nodesPerMove := 1000000; timePerMove := 1000; accuracy := 85 |}.

Inductive Confidence : Set := best | good | questionable | blunder.

Record MoveEvaluation : Set := {
  eval_move : string;
  score : Z;
  depth : Z;
  confidence : Confidence;
  explanation : string
}.

Record EngineMove : Set := {
  move : string;
  evaluation : MoveEvaluation;
  isDeliberate : bool
}.

(** A command line posted to the worker. *)
Inductive Command : Set :=
| Uci                                   (* uci *)
| IsReady                               (* isready *)
| SetOption (name : string) (value : Q) (* setoption name N value V *)
| Position (fen : string)               (* position fen F *)
| GoMovetime (ms : Q)                   (* go movetime T *)
| GoNodes (nodes : Q).                  (* go nodes N *)

(** ** chessEngine.ts: the methods that only read [this.config] *)

Definition calculateSkillLevel (elo : Q) : Z :=
  if Qltb elo 800 then 0%Z
  else if Qltb elo 1000 then 2%Z
  else if Qltb elo 1200 then 4%Z
  else if Qltb elo 1400 then 6%Z
  else if Qltb elo 1600 then 8%Z
  else if Qltb elo 1800 then 10%Z
  else if Qltb elo 2000 then 12%Z
  else if Qltb elo 2200 then 15%Z
  else if Qltb elo 2400 then 18%Z
  else 20%Z.

Definition buildSearchCommand (cfg : EngineConfig) : Command :=
  if Qltb 0 (timePerMove cfg) then GoMovetime (timePerMove cfg)
  else GoNodes (nodesPerMove cfg).

(** [legalMoves.filter(move => move !== bestMove)] *)
Definition alternativeMoves (bestMove : string) (legalMoves : list string)
  : list string :=
  filter (fun m => negb (String.eqb m bestMove)) legalMoves.

(** [a[Math.floor(r * n)]].  Past the end JavaScript yields [undefined];
    for a draw [0 <= r < 1] and [0 < n <= a.length] the index is in range
    (lemma [floor_index_lt]), and the model yields the empty string
    otherwise. *)
Definition pick (a : list string) (r : Q) (n : nat) : string :=
  nth (floor_index r n) a "".

(** [random] is the value of the one [Math.random()] call. *)
Definition selectSuboptimalMove (cfg : EngineConfig) (random : Q)
  (bestMove : string) (legalMoves : list string) : string :=
  let alternativeMoves := alternativeMoves bestMove legalMoves in
  if (List.length alternativeMoves =? 0)%nat then bestMove
  else
    let eloBasedSelection := eloRating cfg / 2500 in
    if Qltb 0.6 eloBasedSelection then
      pick alternativeMoves random (Nat.min 3 (List.length alternativeMoves))
    else if Qltb 0.3 eloBasedSelection then
      pick alternativeMoves random (Nat.min 5 (List.length alternativeMoves))
    else
      pick alternativeMoves random (List.length alternativeMoves).

(** [finalAccuracy], the probability of playing the best move. *)
Definition finalAccuracy (cfg : EngineConfig) : Q :=
  let accuracyFactor := accuracy cfg / 100 in
  let eloFactor := Math_min (eloRating cfg / 2500) 1 in
  accuracyFactor * eloFactor.

(** [randomFactor] is the draw of [applyHumanLikeInaccuracy] itself,
    [random] the one [selectSuboptimalMove] makes when it is reached. *)
Definition applyHumanLikeInaccuracy (cfg : EngineConfig)
  (randomFactor random : Q) (bestMove : string) (legalMoves : list string)
  : string :=
  if Qle_bool 100 (accuracy cfg) then bestMove
  else if Qltb randomFactor (finalAccuracy cfg) then bestMove
  else selectSuboptimalMove cfg random bestMove legalMoves.

(** [random] is the value of the one [Math.random()] call. *)
Definition calculateMoveDelay (cfg : EngineConfig) (random : Q) : Q :=
  let baseDelay := 500 in
  let maxDelay := 3000 in
  let eloFactor := 1 - eloRating cfg / 2500 in
  let randomFactor := 0.5 + random * 0.5 in
  baseDelay + (maxDelay - baseDelay) * eloFactor * randomFactor.

Definition evaluateConfidence (score depth : Z) : Confidence :=
  let absScore := Z.abs score in
  if (absScore >? 500)%Z then best
  else if (absScore >? 200)%Z then good
  else if (absScore >? -100)%Z then questionable
  else blunder.

Definition generateExplanation (move : string) (score : Z) : string :=
  if (score >? 300)%Z then "Excellent move!"
  else if (score >? 100)%Z then "Good move"
  else if (score >? -50)%Z then "Reasonable move"
  else if (score >? -200)%Z then "Questionable move"
  else "This might not be the best".

(** ** chessEngine.ts: the engine object and its event loop *)

(** The closure [messageHandler] of one [getBestMove] call: the promise it
    resolves, the legal moves read when the search began, and the locals
    [evaluation] and [depth] the info lines update. *)
Record Search : Set := {
  promise : nat;
  moves : list string;
  lastEvaluation : Z;
  lastDepth : Z
}.

(** The closure of a search that has seen no info line yet. *)
Definition freshSearch (p : nat) (legalMoves : list string) : Search :=
  {| promise := p; moves := legalMoves; lastEvaluation := 0; lastDepth := 0 |}.

(** What [this.stockfish.onmessage] holds. *)
Inductive Handler : Set :=
| OnNull                         (* null *)
| OnEngineMessage                (* the handler set by initializeEngine *)
| OnSearch (h : Search).         (* the handler set by getBestMove *)

Record Worker : Set := {
  onmessage : Handler;
  posted : list Command
}.

(** How a promise returned by [getBestMove] ended. *)
Inductive Outcome : Set :=
| Resolved (v : option EngineMove)      (* resolve(engineMove), resolve(null) *)
| Rejected.                             (* the executor threw *)

Record Timer : Set := {
  delay : Q;
  target : nat;
  value : EngineMove
}.

(** The fields of the object ([stockfish], [config], [isReady]) and, of the
    JavaScript run time, what the claims need: the promises handed out, the
    ones settled, the armed [setTimeout] timers and the calls suspended in
    [waitForReady] (promise and position). *)
Record State : Set := {
  stockfish : option Worker;
  config : EngineConfig;
  isReady : bool;
  promises : nat;
  settled : list (nat * Outcome);
  timers : list Timer;
  waiting : list (nat * string)
}.

Definition set_stockfish (w : option Worker) (s : State) : State :=
  {| stockfish := w; config := config s; isReady := isReady s;
     promises := promises s; settled := settled s; timers := timers s;
     waiting := waiting s |}.

Definition set_config (c : EngineConfig) (s : State) : State :=
  {| stockfish := stockfish s; config := c; isReady := isReady s;
     promises := promises s; settled := settled s; timers := timers s;
     waiting := waiting s |}.

Definition set_isReady (b : bool) (s : State) : State :=
  {| stockfish := stockfish s; config := config s; isReady := b;
     promises := promises s; settled := settled s; timers := timers s;
     waiting := waiting s |}.

Definition set_promises (n : nat) (s : State) : State :=
  {| stockfish := stockfish s; config := config s; isReady := isReady s;
     promises := n; settled := settled s; timers := timers s;
     waiting := waiting s |}.

Definition set_settled (l : list (nat * Outcome)) (s : State) : State :=
  {| stockfish := stockfish s; config := config s; isReady := isReady s;
     promises := promises s; settled := l; timers := timers s;
     waiting := waiting s |}.

Definition set_timers (l : list Timer) (s : State) : State :=
  {| stockfish := stockfish s; config := config s; isReady := isReady s;
     promises := promises s; settled := settled s; timers := l;
     waiting := waiting s |}.

Definition set_waiting (l : list (nat * string)) (s : State) : State :=
  {| stockfish := stockfish s; config := config s; isReady := isReady s;
     promises := promises s; settled := settled s; timers := timers s;
     waiting := l |}.

(** The state monad the methods run in. *)
Definition M (A : Type) : Type := State -> A * State.

Definition ret {A : Type} (a : A) : M A := fun s => (a, s).

Definition bind {A B : Type} (m : M A) (k : A -> M B) : M B :=
  fun s => let (a, s') := m s in k a s'.

Notation "x <- m ;; k" := (bind m (fun x => k))
  (at level 61, m at next level, right associativity).
Notation "m ;; k" := (bind m (fun _ => k))
  (at level 61, right associativity).

Definition gets {A : Type} (f : State -> A) : M A := fun s => (f s, s).

Definition modify (f : State -> State) : M unit := fun s => (tt, f s).

Definition exec {A : Type} (m : M A) (s : State) : State := snd (m s).

(** The outcome of promise [p], if it has one. *)
Fixpoint outcome_in (l : list (nat * Outcome)) (p : nat) : option Outcome :=
  match l with
  | [] => None
  | (q, o) :: l' => if (q =? p)%nat then Some o else outcome_in l' p
  end.

Definition outcome (s : State) (p : nat) : option Outcome :=
  outcome_in (settled s) p.

(** [resolve(v)] or a throw inside the executor; settling twice keeps the
    first outcome. *)
Definition settle (p : nat) (o : Outcome) : M unit :=
  modify (fun s => match outcome s p with
                   | Some _ => s
                   | None => set_settled (settled s ++ [(p, o)]) s
                   end).

(** [new Promise(...)]: a fresh promise. *)
Definition newPromise : M nat :=
  p <- gets promises ;;
  modify (set_promises (S p)) ;;
  ret p.

Definition setTimeout (p : nat) (v : EngineMove) (ms : Q) : M unit :=
  modify (fun s =>
            set_timers
              (timers s ++ [{| delay := ms; target := p; value := v |}]) s).

Definition sendCommand (command : Command) : M unit :=
  modify (fun s =>
            match stockfish s with
            | Some w =>
                set_stockfish
                  (Some {| onmessage := onmessage w;
                           posted := posted w ++ [command] |}) s
            | None => s
            end).

(** [this.stockfish.onmessage = h]; [false] when [this.stockfish] is
    undefined and the assignment throws. *)
Definition setOnMessage (h : Handler) : M bool :=
  fun s =>
    match stockfish s with
    | Some w =>
        (true, set_stockfish (Some {| onmessage := h; posted := posted w |}) s)
    | None => (false, s)
    end.

(** The constructor, before the dynamic import of the worker settles. *)
Definition new (cfg : PartialConfig) : State :=
  {| stockfish := None; config := spread defaultConfig cfg; isReady := false;
     promises := 0; settled := []; timers := []; waiting := [] |}.

Definition configureEngine : M unit :=
  cfg <- gets config ;;
  sendCommand (SetOption "Skill Level" (skillLevel cfg)) ;;
  sendCommand (SetOption "Contempt" (contempt cfg)) ;;
  sendCommand (SetOption "Move Overhead" (moveOverhead cfg)) ;;
  let adjustedSkillLevel := calculateSkillLevel (eloRating cfg) in
  sendCommand (SetOption "Skill Level" (inject_Z adjustedSkillLevel)) ;;
  sendCommand IsReady.

Definition handleEngineMessage (message : string) : M unit :=
  if String.eqb message "uciok" then configureEngine
  else if String.eqb message "readyok" then modify (set_isReady true)
  else ret tt.

(** [initializeEngine] once the import has settled: [loaded] tells whether
    it succeeded; on failure the error is only logged. *)
Definition initializeEngine (loaded : bool) : M unit :=
  if loaded then
    modify (set_stockfish
              (Some {| onmessage := OnEngineMessage; posted := [] |})) ;;
    sendCommand Uci ;;
    sendCommand IsReady
  else ret tt.

Definition updateConfig (newConfig : PartialConfig) : M unit :=
  modify (fun s => set_config (spread (config s) newConfig) s) ;;
  configureEngine.

(** The values of the [Math.random()] calls one [bestmove] line can reach:
    in [applyHumanLikeInaccuracy], in [selectSuboptimalMove] and in
    [calculateMoveDelay]. *)
Record Draws : Set := {
  decide : Q;
  choose : Q;
  think : Q
}.

(** The info branch of [messageHandler]: the locals after [message]. *)
Definition readInfo (h : Search) (message : string) : Search :=
  if startsWith message "info depth" then
    let depthMatch := match_depth message in
    let scoreMatch := match_score_cp message in
    {| promise := promise h;
       moves := moves h;
       lastEvaluation :=
         match scoreMatch with
         | Some g => parseInt g
         | None => lastEvaluation h
         end;
       lastDepth :=
         match depthMatch with
         | Some g => parseInt g
         | None => lastDepth h
         end |}
  else h.

(** The [engineMove] built in the bestmove branch of [messageHandler]. *)
Definition engineMoveOf (cfg : EngineConfig) (h : Search) (rng : Draws)
  (bestMove : string) : EngineMove :=
  let finalMove :=
    applyHumanLikeInaccuracy cfg (decide rng) (choose rng) bestMove (moves h) in
  let moveEvaluation :=
    {| eval_move := finalMove;
       score := lastEvaluation h;
       depth := lastDepth h;
       confidence := evaluateConfidence (lastEvaluation h) (lastDepth h);
       explanation := generateExplanation finalMove (lastEvaluation h) |} in
  {| move := finalMove;
     evaluation := moveEvaluation;
     isDeliberate := negb (String.eqb finalMove bestMove) |}.

Definition messageHandler (h : Search) (rng : Draws) (message : string)
  : M unit :=
  let h := readInfo h message in
  if startsWith message "bestmove" then
    setOnMessage OnNull ;;
    match match_bestmove message with
    | Some bestMove =>
        cfg <- gets config ;;
        let engineMove := engineMoveOf cfg h rng bestMove in
        setTimeout (promise h) engineMove (calculateMoveDelay cfg (think rng))
    | None => settle (promise h) (Resolved None)
    end
  else
    setOnMessage (OnSearch h) ;;
    ret tt.

(** The executor of the promise [getBestMove] returns; [legalMoves] is what
    [chessUtils.getLegalMoves()] yields when it runs. *)
Definition startSearch (p : nat) (fen : string) (legalMoves : list string)
  : M unit :=
  let moves := legalMoves in
  if (List.length moves =? 0)%nat then settle p (Resolved None)
  else
    sendCommand (Position fen) ;;
    cfg <- gets config ;;
    let searchCommand := buildSearchCommand cfg in
    let messageHandler := OnSearch (freshSearch p moves) in
    assigned <- setOnMessage messageHandler ;;
    if assigned : bool then sendCommand searchCommand else settle p Rejected.

(** [getBestMove] up to its first suspension: a ready engine starts the
    search at once, otherwise the call waits in [waitForReady]. *)
Definition getBestMove (fen : string) (legalMoves : list string) : M nat :=
  p <- newPromise ;;
  ready <- gets isReady ;;
  (if ready : bool then startSearch p fen legalMoves
   else modify (fun s => set_waiting (waiting s ++ [(p, fen)]) s)) ;;
  ret p.

Fixpoint position_of (l : list (nat * string)) (p : nat) : option string :=
  match l with
  | [] => None
  | (q, fen) :: l' => if (q =? p)%nat then Some fen else position_of l' p
  end.

(** One [checkReady] of the call waiting on promise [p]: it goes on to the
    search when the engine is ready and re-arms its timer otherwise. *)
Definition checkReady (p : nat) (legalMoves : list string) : M unit :=
  w <- gets waiting ;;
  ready <- gets isReady ;;
  match position_of w p with
  | Some fen =>
      if ready : bool then
        modify (set_waiting (filter (fun e => negb (fst e =? p)%nat) w)) ;;
        startSearch p fen legalMoves
      else ret tt
  | None => ret tt
  end.

(** The worker emits [message]: whatever [onmessage] holds is called. *)
Definition deliver (message : string) (rng : Draws) : M unit :=
  w <- gets stockfish ;;
  match option_map onmessage w with
  | Some OnEngineMessage => handleEngineMessage message
  | Some (OnSearch h) => messageHandler h rng message
  | Some OnNull | None => ret tt
  end.

Fixpoint timer_of (l : list Timer) (p : nat) : option EngineMove :=
  match l with
  | [] => None
  | t :: l' => if (target t =? p)%nat then Some (value t) else timer_of l' p
  end.

(** The timer armed for promise [p] expires. *)
Definition fire (p : nat) : M unit :=
  t <- gets timers ;;
  match timer_of t p with
  | Some v =>
      modify (set_timers (filter (fun t => negb (target t =? p)%nat) t)) ;;
      settle p (Resolved (Some v))
  | None => ret tt
  end.

(** A request is pending when its promise was handed out and is not
    settled. *)
Definition pending (s : State) (p : nat) : Prop :=
  (p < promises s)%nat /\ outcome s p = None.

(** The value of the last [setoption name Skill Level] among [cmds]. *)
Fixpoint lastSkillLevel (cmds : list Command) : option Q :=
  match cmds with
  | [] => None
  | c :: cmds' =>
      match lastSkillLevel cmds' with
      | Some v => Some v
      | None =>
          match c with
          | SetOption name v =>
              if String.eqb name "Skill Level" then Some v else None
          | _ => None
          end
      end
  end.

(** Everything posted to the worker so far. *)
Definition sent (s : State) : list Command :=
  match stockfish s with
  | Some w => posted w
  | None => []
  end.

(** The configuration of [new ChessEngine({ eloRating, accuracy })]. *)
Definition configOf (elo acc : Q) : EngineConfig :=
  spread defaultConfig
    {| eloRating' := Some elo; skillLevel' := None; contempt' := None;
       moveOverhead' := None; nodesPerMove' := None; timePerMove' := None;
       accuracy' := Some acc |}.

(** [createEngineForELO]: the preset engine of a rating, as the constructor
    leaves it.  The accuracy scaled from the rating is overwritten by the
    branch taken. *)
Definition createEngineForELO (elo : Q) : State :=
  let config :=
    {| eloRating' := Some elo; skillLevel' := None; contempt' := None;
       moveOverhead' := None; nodesPerMove' := None; timePerMove' := None;
       accuracy' :=
         Some (Math_max 60 (Math_min 95 (60 + (elo - 800) / 20))) |} in
  let preset (ms acc : Q) :=
    {| eloRating' := eloRating' config; skillLevel' := skillLevel' config;
       contempt' := contempt' config; moveOverhead' := moveOverhead' config;
       nodesPerMove' := nodesPerMove' config; timePerMove' := Some ms;
       accuracy' := Some acc |} in
  new (if Qltb elo 1000 then preset 500 65
       else if Qltb elo 1500 then preset 1000 75
       else if Qltb elo 2000 then preset 1500 85
       else preset 2000 92).

(** One turn of the event loop on the engine: the import of the worker
    settles (once, while there is no worker), [updateConfig] or [getBestMove]
    is called, a suspended call polls readiness, the worker emits a line,
    or a timer expires.  [getMultipleMoves] and [destroy] are not part of
    the model. *)
Inductive step : State -> State -> Prop :=
| step_initializeEngine (s : State) (loaded : bool) :
    stockfish s = None -> step s (exec (initializeEngine loaded) s)
| step_updateConfig (s : State) (newConfig : PartialConfig) :
    step s (exec (updateConfig newConfig) s)
| step_getBestMove (s : State) (fen : string) (legalMoves : list string) :
    step s (exec (getBestMove fen legalMoves) s)
| step_checkReady (s : State) (p : nat) (legalMoves : list string) :
    step s (exec (checkReady p legalMoves) s)
| step_deliver (s : State) (message : string) (rng : Draws) :
    step s (exec (deliver message rng) s)
| step_fire (s : State) (p : nat) :
    step s (exec (fire p) s).

(** The states an engine built by the constructor reaches by such turns. *)
Inductive reachable : State -> Prop :=
| reachable_new (cfg : PartialConfig) : reachable (new cfg)
| reachable_step (s s' : State) : reachable s -> step s s' -> reachable s'.

(** Promises that settled, timers, suspended calls and the installed search
    handler all belong to promises already handed out, and a ready engine
    has its worker. *)
Record wf (s : State) : Prop := {
  wf_settled : forall p o, In (p, o) (settled s) -> (p < promises s)%nat;
  wf_timers : forall t, In t (timers s) -> (target t < promises s)%nat;
  wf_waiting : forall p fen, In (p, fen) (waiting s) -> (p < promises s)%nat;
  wf_handler : forall w h,
    stockfish s = Some w -> onmessage w = OnSearch h ->
    (promise h < promises s)%nat;
  wf_ready : isReady s = true -> stockfish s <> None
}.

(** [result] is the entry of [a] that the draw [r] selects among the first
    [n]: the unit interval is cut into [n] slots of equal width, and the
    slot [r] falls in gives the index. *)
Definition drawn_from (a : list string) (n : nat) (r : Q) (result : string)
  : Prop :=
  exists i : nat,
    (i < n)%nat /\ nth_error a i = Some result /\
    inject_Z (Z.of_nat i) / inject_Z (Z.of_nat n) <= r /\
    r < (inject_Z (Z.of_nat i) + 1) / inject_Z (Z.of_nat n).

(** An engine whose worker loaded and answered the handshake. *)
Definition afterHandshake : State :=
  let rng := {| decide := 0; choose := 0; think := 0 |} in
  exec (deliver "readyok" rng)
    (exec (deliver "uciok" rng)
       (exec (initializeEngine true) (new emptyPartial))).

(** The same engine with one search under way. *)
Definition searching : State :=
  exec (getBestMove "rnbqkbnr/pppppppp/8/8/8/8/PPPPPPPP/RNBQKBNR w KQkq - 0 1"
          ["e2e4"; "d2d4"; "g1f3"])
    afterHandshake.

End ChessEngine.

(** ** Predicates kept by the methods *)

Module Kept.

Import ChessEngine.

(** The computation [m] keeps the property [P] of the engine. *)
Definition preserves (P : State -> Prop) {A : Type} (m : M A) : Prop :=
  forall s : State, P s -> P (snd (m s)).

(** While no worker has loaded, the engine is not ready, no promise has
    settled and no timer is armed. *)
Definition idle_without_worker (s : State) : Prop :=
  stockfish s = None -> isReady s = false /\ settled s = [] /\ timers s = [].

End Kept.

(** ** chessEngine.ts: the handler of getMultipleMoves *)

Module Candidates.

Import Regexp ChessEngine.
Local Open Scope string_scope.










End Candidates.

(** ** chessUtils.ts *)

Module ChessUtils.

Import Regexp.
Local Open Scope string_scope.

(** [String.fromCharCode(code)], for a code unit below 256; the callers
    pass 97 to 104.  Other code units have no counterpart in the 8-bit
    strings of the model. *)
Definition fromCharCode (code : Z) : string :=
  String (ascii_of_nat (Z.to_nat code)) "".

(** The coordinates [squareToCoords] returns; [None] stands for [NaN]. *)
Record Coords : Set := { file : option Z; rank : option Z }.

(** [square.charCodeAt(0)]: [NaN] on the empty string. *)
Definition charCodeAt0 (square : string) : option Z :=
  match square with
  | String c _ => Some (Z.of_nat (nat_of_ascii c))
  | EmptyString => None
  end.

(** [parseInt(square[1])]: the digit in second place, [NaN] when there is
    no second character or it is no digit. *)
Definition parseIntAt1 (square : string) : option Z :=
  match square with
  | String _ (String c _) => if is_digit c then Some (digit_value c) else None
  | _ => None
  end.

Definition squareToCoords (square : string) : Coords :=
  {| file := option_map (fun code => code - 97) (charCodeAt0 square);
     rank := option_map (fun digit => digit - 1) (parseIntAt1 square) |}.

Definition coordsToSquare (file rank : Z) : string :=
  fromCharCode (97 + file) ++ toString (rank + 1).

(** [getAttackedSquares]; [isAttacked square] stands for
    [this.chess.isAttacked(square, this.chess.turn())]. *)
Definition getAttackedSquares (isAttacked : string -> bool) : list string :=
  flat_map
    (fun rank =>
       flat_map
         (fun file =>
            let square :=
              fromCharCode (97 + Z.of_nat file) ++ toString (8 - Z.of_nat rank)
            in
            if isAttacked square then [square] else [])
         (seq 0 8))
    (seq 0 8).

(** The 64 squares of the board, [a1] to [h8]. *)
Definition boardSquares : list string :=
  flat_map
    (fun rank => map (fun file => coordsToSquare (Z.of_nat file) (Z.of_nat rank))
                   (seq 0 8))
    (seq 0 8).

End ChessUtils.

(** ** ChessBoard.tsx *)

Module ChessBoard.

Import ChessUtils.
Local Open Scope Q_scope.





End ChessBoard.

(** ** TrainingControls.tsx *)

Module TrainingControls.

Local Open Scope string_scope.
Local Open Scope Q_scope.

Definition getEloDescription (elo : Q) : string :=
  if Qltb elo 800 then "Beginner"
  else if Qltb elo 1200 then "Novice"
  else if Qltb elo 1600 then "Intermediate"
  else if Qltb elo 2000 then "Advanced"
  else if Qltb elo 2400 then "Expert"
  else "Master".

Definition getAccuracyDescription (accuracy : Q) : string :=
  if Qltb accuracy 70 then "Very Human-like (Many mistakes)"
  else if Qltb accuracy 80 then "Human-like (Some mistakes)"
  else if Qltb accuracy 90 then "Strong Human (Few mistakes)"
  else if Qltb accuracy 95 then "Near Perfect (Rare mistakes)"
  else "Perfect Play (No mistakes)".

End TrainingControls.

(** * Properties *)

Import ChessEngine.

(** ** Comparisons and floors on numbers *)

Section Numbers.

Local Open Scope Q_scope.

Lemma QltbP (a b : Q) : Qltb_cases a b (Qltb a b).
Proof.
  unfold Qltb. destruct (Qle_bool b a) eqn:E; simpl.
  - apply Qltb_ge. now apply Qle_bool_iff.
  - apply Qltb_lt. apply Qnot_le_lt. intro H.
    apply Qle_bool_iff in H. congruence.
Qed.

Lemma Qltb_true_iff (a b : Q) : Qltb a b = true <-> a < b.
Proof.
  destruct (QltbP a b) as [H | H]; split; intro H'; try easy.
  exfalso. apply (Qlt_irrefl a). eapply Qlt_le_trans; eauto.
Qed.

Lemma floor_scaled_bounds (r : Q) (n : nat) :
  is_draw r -> (0 < n)%nat ->
  (0 <= Qfloor (r * inject_Z (Z.of_nat n)) < Z.of_nat n)%Z.
Proof.
  intros [H0 H1] Hn.
  assert (Hpos : 0 < inject_Z (Z.of_nat n)).
  { change 0 with (inject_Z 0). rewrite <- Zlt_Qlt. lia. }
  split.
  - change 0%Z with (Qfloor 0). apply Qfloor_resp_le.
    apply Qmult_le_0_compat; [assumption | now apply Qlt_le_weak].
  - rewrite Zlt_Qlt.
    eapply Qle_lt_trans; [apply Qfloor_le |].
    rewrite <- (Qmult_1_l (inject_Z (Z.of_nat n))) at 2.
    now apply Qmult_lt_compat_r.
Qed.

Lemma floor_index_lt (r : Q) (n : nat) :
  is_draw r -> (0 < n)%nat -> (floor_index r n < n)%nat.
Proof.
  intros Hr Hn. unfold floor_index.
  pose proof (floor_scaled_bounds r n Hr Hn). lia.
Qed.

(** The index [Math.floor(r * n)] is the slot of width [1/n] holding [r]. *)
Lemma floor_index_slot (r : Q) (n : nat) :
  is_draw r -> (0 < n)%nat ->
  inject_Z (Z.of_nat (floor_index r n)) / inject_Z (Z.of_nat n) <= r /\
  r < (inject_Z (Z.of_nat (floor_index r n)) + 1) / inject_Z (Z.of_nat n).
Proof.
  intros Hr Hn. unfold floor_index.
  pose proof (floor_scaled_bounds r n Hr Hn) as Hb.
  rewrite Z2Nat.id by lia.
  assert (Hpos : 0 < inject_Z (Z.of_nat n)).
  { change 0 with (inject_Z 0). rewrite <- Zlt_Qlt. lia. }
  set (m := inject_Z (Z.of_nat n)) in *.
  split.
  - apply Qle_shift_div_r; [assumption | apply Qfloor_le].
  - apply Qlt_shift_div_l; [assumption |].
    pose proof (Qlt_floor (r * m)) as Hf.
    rewrite inject_Z_plus in Hf. exact Hf.
Qed.

End Numbers.

(** Splits every comparison of numbers in the goal into its two cases. *)
Ltac split_Qltb :=
  repeat match goal with
         | |- context [Qltb ?a ?b] => destruct (QltbP a b)
         end.

(** ** The rating bands *)

Section SkillLevel.

Local Open Scope Q_scope.

Lemma calculateSkillLevel_range (elo : Q) :
  (0 <= calculateSkillLevel elo <= 20)%Z.
Proof. unfold calculateSkillLevel. split_Qltb; lia. Qed.

Lemma calculateSkillLevel_mono (r1 r2 : Q) :
  r1 <= r2 -> (calculateSkillLevel r1 <= calculateSkillLevel r2)%Z.
Proof.
  intro H. unfold calculateSkillLevel.
  split_Qltb; try lia; exfalso; lra.
Qed.

(** C6: the rating-to-skill-level table is monotonic, stays within 0..20,
    sends every rating below the lowest band (below 800) to 0 and every
    rating above the highest band (2400 and more) to 20. *)
Theorem calculateSkillLevel_monotonic_bounded :
  (forall r1 r2 : Q,
      r1 < r2 -> (calculateSkillLevel r1 <= calculateSkillLevel r2)%Z) /\
  (forall r : Q, (0 <= calculateSkillLevel r <= 20)%Z) /\
  (forall r : Q, r < 800 -> calculateSkillLevel r = 0%Z) /\
  (forall r : Q, 2400 <= r -> calculateSkillLevel r = 20%Z).
Proof.
  repeat split.
  - intros r1 r2 H. apply calculateSkillLevel_mono. lra.
  - apply calculateSkillLevel_range.
  - apply calculateSkillLevel_range.
  - intros r H. unfold calculateSkillLevel. split_Qltb; try reflexivity; lra.
  - intros r H. unfold calculateSkillLevel. split_Qltb; try reflexivity; lra.
Qed.

Lemma calculateSkillLevel_monotonic_bounded_witness :
  (calculateSkillLevel 750 <= calculateSkillLevel 2450)%Z /\
  calculateSkillLevel 750 = 0%Z /\ calculateSkillLevel 2450 = 20%Z.
Proof.
  destruct calculateSkillLevel_monotonic_bounded as (Hmono & _ & Hlow & Hhigh).
  split; [apply Hmono; reflexivity |].
  split; [apply Hlow; reflexivity | apply Hhigh; discriminate].
Defined.

End SkillLevel.

(** ** Classification of moves *)

Section Classification.

Import TrainingLogs.
Local Open Scope Z_scope.

Lemma analyzeMoveQuality_type (prevEval currentEval : Z) (isPlayerMove : bool) :
  let delta := evalChange prevEval currentEval isPlayerMove in
  type (analyzeMoveQuality prevEval currentEval isPlayerMove) =
    if delta >? 200 then brilliant
    else if delta >? 100 then excellent
    else if delta >? 0 then TrainingLogs.good
    else if delta >? -50 then TrainingLogs.move
    else if delta >? -100 then inaccuracy
    else if delta >? -200 then mistake
    else TrainingLogs.blunder.
Proof.
  unfold analyzeMoveQuality, evalChange.
  destruct isPlayerMove;
    repeat match goal with
           | |- context [?a >? ?b] => destruct (a >? b)
           end; reflexivity.
Qed.

(** C5: [analyzeMoveQuality] takes the change of evaluation from the mover's
    side and sends it to exactly one of the seven tiers, each tier being one
    interval of the descending thresholds 200, 100, 0, -50, -100, -200; a
    change of 200 is excellent, a change of -200 a blunder, and 50 followed
    by -180 for the mover is a change of -230, a blunder. *)
Theorem analyzeMoveQuality_partition :
  forall (prevEval currentEval : Z) (isPlayerMove : bool),
    let delta :=
      if isPlayerMove then currentEval - prevEval
      else prevEval - currentEval in
    let t := type (analyzeMoveQuality prevEval currentEval isPlayerMove) in
    (t = brilliant <-> 200 < delta) /\
    (t = excellent <-> 100 < delta <= 200) /\
    (t = TrainingLogs.good <-> 0 < delta <= 100) /\
    (t = TrainingLogs.move <-> -50 < delta <= 0) /\
    (t = inaccuracy <-> -100 < delta <= -50) /\
    (t = mistake <-> -200 < delta <= -100) /\
    (t = TrainingLogs.blunder <-> delta <= -200) /\
    type (analyzeMoveQuality 0 200 true) = excellent /\
    type (analyzeMoveQuality 0 (-200) true) = TrainingLogs.blunder /\
    evalChange 50 (-180) true = -230 /\
    type (analyzeMoveQuality 50 (-180) true) = TrainingLogs.blunder.
Proof.
  intros prevEval currentEval isPlayerMove delta t.
  assert (Ht : t = if delta >? 200 then brilliant
                   else if delta >? 100 then excellent
                   else if delta >? 0 then TrainingLogs.good
                   else if delta >? -50 then TrainingLogs.move
                   else if delta >? -100 then inaccuracy
                   else if delta >? -200 then mistake
                   else TrainingLogs.blunder)
    by apply analyzeMoveQuality_type.
  rewrite Ht. clear Ht t.
  repeat match goal with
         | |- context [?a >? ?b] => destruct (Z.gtb_spec a b)
         end;
    repeat split; intros; try discriminate; try reflexivity; try lia.
Qed.

End Classification.

Section Confidence.

Local Open Scope Z_scope.

(** C9: [evaluateConfidence] compares the absolute value of the score with
    500, 200 and -100; as an absolute value is never below -100, the
    questionable branch catches every score of magnitude at most 200 and
    the blunder bucket is never returned. *)
Theorem evaluateConfidence_never_blunder :
  forall score depth : Z,
    evaluateConfidence score depth <> blunder /\
    evaluateConfidence score depth =
      (if Z.abs score >? 500 then best
       else if Z.abs score >? 200 then good
       else questionable) /\
    (Z.abs score >? -100) = true.
Proof.
  intros score depth.
  assert (H : (Z.abs score >? -100) = true).
  { apply Z.gtb_lt. pose proof (Z.abs_nonneg score). lia. }
  unfold evaluateConfidence. rewrite H.
  repeat split; destruct (Z.abs score >? 500), (Z.abs score >? 200);
    discriminate || reflexivity.
Qed.

End Confidence.

(** ** Thinking time *)

Section MoveDelay.

Local Open Scope Q_scope.


(** C2, at a rating above the ceiling: the engine [createEngineForELO] builds
    for a rating of 3000 waits 250 ms when [Math.random()] yields 0, which
    is below the base delay of 500 ms. *)
Theorem calculateMoveDelay_below_base :
  eloRating (config (createEngineForELO 3000)) = 3000 /\
  calculateMoveDelay (config (createEngineForELO 3000)) 0 == 250 /\
  ~ 500 <= calculateMoveDelay (config (createEngineForELO 3000)) 0.
Proof.
  split; [reflexivity |]. split; [reflexivity |].
  intro H. vm_compute in H. apply H. reflexivity.
Qed.

End MoveDelay.

(** ** Playing the best move or a substitute *)

Section Inaccuracy.

Local Open Scope Q_scope.
Local Open Scope string_scope.

(** C3: with an accuracy of 100 the best move is returned whatever the
    rating and the draws, and the engine move built from it is not marked
    as deliberate. *)
Theorem accuracy_100_plays_best :
  forall (cfg : EngineConfig) (h : Search) (rng : Draws)
         (randomFactor random : Q) (bestMove : string)
         (legalMoves : list string),
    accuracy cfg == 100 ->
    applyHumanLikeInaccuracy cfg randomFactor random bestMove legalMoves
      = bestMove /\
    move (engineMoveOf cfg h rng bestMove) = bestMove /\
    isDeliberate (engineMoveOf cfg h rng bestMove) = false.
Proof.
  intros cfg h rng randomFactor random bestMove legalMoves Hacc.
  assert (Hge : Qle_bool 100 (accuracy cfg) = true).
  { apply Qle_bool_iff. rewrite Hacc. apply Qle_refl. }
  assert (Hbest : forall r1 r2 l,
             applyHumanLikeInaccuracy cfg r1 r2 bestMove l = bestMove).
  { intros. unfold applyHumanLikeInaccuracy. now rewrite Hge. }
  split; [apply Hbest |].
  unfold engineMoveOf; simpl. rewrite Hbest.
  split; [reflexivity |]. now rewrite String.eqb_refl.
Qed.

(** The scenario of a rating of 2400 played at an accuracy of 100. *)
Lemma accuracy_100_plays_best_witness :
  applyHumanLikeInaccuracy (configOf 2400 100) 0.99 0.5 "e2e4"
    ["e2e4"; "d2d4"; "g1f3"] = "e2e4" /\
  move (engineMoveOf (configOf 2400 100)
          (freshSearch 0 ["e2e4"; "d2d4"; "g1f3"])
          {| decide := 0.99; choose := 0.5; think := 0.5 |} "e2e4") = "e2e4" /\
  isDeliberate (engineMoveOf (configOf 2400 100)
                  (freshSearch 0 ["e2e4"; "d2d4"; "g1f3"])
                  {| decide := 0.99; choose := 0.5; think := 0.5 |} "e2e4")
    = false.
Proof.
  apply (accuracy_100_plays_best (configOf 2400 100)
           (freshSearch 0 ["e2e4"; "d2d4"; "g1f3"])
           {| decide := 0.99; choose := 0.5; think := 0.5 |}
           0.99 0.5 "e2e4" ["e2e4"; "d2d4"; "g1f3"]).
  reflexivity.
Defined.

Lemma alternativeMoves_In (bestMove : string) (legalMoves : list string)
  (m : string) :
  In m (alternativeMoves bestMove legalMoves) <->
  In m legalMoves /\ m <> bestMove.
Proof.
  unfold alternativeMoves. rewrite filter_In, negb_true_iff, String.eqb_neq.
  reflexivity.
Qed.

Lemma pick_drawn (a : list string) (r : Q) (n : nat) :
  is_draw r -> (0 < n <= List.length a)%nat -> drawn_from a n r (pick a r n).
Proof.
  intros Hr [Hn Hlen]. exists (floor_index r n).
  pose proof (floor_index_lt r n Hr Hn) as Hlt.
  pose proof (floor_index_slot r n Hr Hn) as [Hlo Hhi].
  repeat split; try assumption.
  unfold pick. apply nth_error_nth'. lia.
Qed.

Lemma drawn_from_In (a : list string) (n : nat) (r : Q) (m : string) :
  drawn_from a n r m -> In m a.
Proof. intros (i & _ & Hi & _). eapply nth_error_In; eauto. Qed.

(** The substitute is drawn among the leading alternatives, as many of them
    as the tier of the rating allows. *)
Lemma selectSuboptimalMove_drawn (cfg : EngineConfig) (random : Q)
  (bestMove : string) (legalMoves : list string) :
  is_draw random ->
  alternativeMoves bestMove legalMoves <> [] ->
  drawn_from (alternativeMoves bestMove legalMoves)
    (if Qltb 0.6 (eloRating cfg / 2500)
     then Nat.min 3 (List.length (alternativeMoves bestMove legalMoves))
     else if Qltb 0.3 (eloRating cfg / 2500)
          then Nat.min 5 (List.length (alternativeMoves bestMove legalMoves))
          else List.length (alternativeMoves bestMove legalMoves))
    random (selectSuboptimalMove cfg random bestMove legalMoves).
Proof.
  intros Hr Hne. unfold selectSuboptimalMove.
  set (alternatives := alternativeMoves bestMove legalMoves) in *.
  assert (Hlen : (0 < List.length alternatives)%nat).
  { destruct alternatives; [congruence | simpl; lia]. }
  assert (Hnz : (List.length alternatives =? 0)%nat = false)
    by (apply Nat.eqb_neq; lia).
  rewrite Hnz.
  destruct (Qltb 0.6 (eloRating cfg / 2500));
    [| destruct (Qltb 0.3 (eloRating cfg / 2500))];
    (apply pick_drawn; [assumption | lia]).
Qed.



(** A substitute drawn while another legal move exists is not the best
    move. *)
Lemma selectSuboptimalMove_other (cfg : EngineConfig) (random : Q)
  (bestMove : string) (legalMoves : list string) :
  is_draw random ->
  (exists m, In m legalMoves /\ m <> bestMove) ->
  selectSuboptimalMove cfg random bestMove legalMoves <> bestMove.
Proof.
  intros Hr (m & Hm).
  assert (Hne : alternativeMoves bestMove legalMoves <> []).
  { intro E. apply alternativeMoves_In in Hm. rewrite E in Hm. exact Hm. }
  pose proof (selectSuboptimalMove_drawn cfg random bestMove legalMoves Hr Hne)
    as Hdrawn.
  apply drawn_from_In, alternativeMoves_In in Hdrawn. apply Hdrawn.
Qed.




End Inaccuracy.

(** ** Running the methods *)

Section Running.

Lemma exec_bind {A B : Type} (m : M A) (k : A -> M B) (s : State) :
  exec (bind m k) s = exec (k (fst (m s))) (snd (m s)).
Proof. unfold exec, bind. now destruct (m s). Qed.

Lemma exec_seq {A B : Type} (m : M A) (k : M B) (s : State) :
  exec (m ;; k) s = exec k (exec m s).
Proof. apply exec_bind. Qed.

Lemma exec_gets {A B : Type} (f : State -> A) (k : A -> M B) (s : State) :
  exec (x <- gets f ;; k x) s = exec (k (f s)) s.
Proof. reflexivity. Qed.

(** What [configureEngine] posts, in order. *)
Lemma configureEngine_sent (s : State) (w : Worker) :
  stockfish s = Some w ->
  sent (exec configureEngine s)
  = sent s ++
    [SetOption "Skill Level" (skillLevel (config s));
     SetOption "Contempt" (contempt (config s));
     SetOption "Move Overhead" (moveOverhead (config s));
     SetOption "Skill Level"
       (inject_Z (calculateSkillLevel (eloRating (config s))));
     IsReady].
Proof.
  intro H. destruct s as [sf cfg rdy n st tm wt]. simpl in H. subst sf.
  unfold sent. cbn. now repeat rewrite <- app_assoc.
Qed.

Lemma lastSkillLevel_app (l l' : list Command) :
  lastSkillLevel (l ++ l')
  = match lastSkillLevel l' with
    | Some v => Some v
    | None => lastSkillLevel l
    end.
Proof.
  induction l as [| c l IH]; simpl.
  - now destruct (lastSkillLevel l').
  - rewrite IH. now destruct (lastSkillLevel l').
Qed.

Lemma configureEngine_lastSkillLevel (s : State) (w : Worker) :
  stockfish s = Some w ->
  lastSkillLevel (sent (exec configureEngine s))
  = Some (inject_Z (calculateSkillLevel (eloRating (config s)))).
Proof.
  intro H. rewrite (configureEngine_sent s w H), lastSkillLevel_app.
  reflexivity.
Qed.

(** C10: each time the configuration is applied, in the handshake on
    [uciok] and in every [updateConfig], the last Skill Level option posted
    carries [calculateSkillLevel] of the rating; the [skillLevel] field of
    the configuration is posted first and overridden, so the level in force
    is a function of the rating alone. *)
Theorem skill_level_follows_rating :
  forall (s : State) (w : Worker) (newConfig : PartialConfig) (rng : Draws),
    stockfish s = Some w ->
    lastSkillLevel (sent (exec configureEngine s))
    = Some (inject_Z (calculateSkillLevel (eloRating (config s)))) /\
    (onmessage w = OnEngineMessage ->
     lastSkillLevel (sent (exec (deliver "uciok" rng) s))
     = Some (inject_Z (calculateSkillLevel (eloRating (config s))))) /\
    lastSkillLevel (sent (exec (updateConfig newConfig) s))
    = Some (inject_Z (calculateSkillLevel
                        (eloRating (spread (config s) newConfig)))) /\
    (eloRating' newConfig = None ->
     lastSkillLevel (sent (exec (updateConfig newConfig) s))
     = Some (inject_Z (calculateSkillLevel (eloRating (config s))))).
Proof.
  intros s w newConfig rng H.
  assert (Hupd : lastSkillLevel (sent (exec (updateConfig newConfig) s))
                 = Some (inject_Z (calculateSkillLevel
                                     (eloRating (spread (config s) newConfig))))).
  { unfold updateConfig. rewrite exec_bind.
    rewrite (configureEngine_lastSkillLevel _ w); [reflexivity | exact H]. }
  split; [now apply (configureEngine_lastSkillLevel s w) |].
  split; [| split].
  - intro Hh. unfold deliver. rewrite exec_bind. simpl.
    rewrite H. simpl. rewrite Hh.
    now apply (configureEngine_lastSkillLevel s w).
  - exact Hupd.
  - intro Hnone. rewrite Hupd. simpl. now rewrite Hnone.
Qed.

Lemma skill_level_follows_rating_witness :
  lastSkillLevel
    (sent (exec (deliver "uciok" {| decide := 0; choose := 0; think := 0 |})
             (exec (initializeEngine true) (createEngineForELO 700))))
  = Some (inject_Z (calculateSkillLevel 700)).
Proof.
  refine (proj1 (proj2
    (skill_level_follows_rating
       (exec (initializeEngine true) (createEngineForELO 700))
       {| onmessage := OnEngineMessage; posted := [Uci; IsReady] |}
       emptyPartial {| decide := 0; choose := 0; think := 0 |} _)) _);
    reflexivity.
Defined.

End Running.

(** ** Reading the info lines *)

Section InfoLines.

Local Open Scope string_scope.
Local Open Scope Z_scope.

(** C8, as the code reads a line: a progress line whose score is a distance
    to mate has no centipawn field; it leaves the recorded evaluation as it
    was, only the depth being read, and the engine move built afterwards
    carries that earlier evaluation and its confidence bucket; nothing is
    normalized. *)
Theorem mate_line_keeps_evaluation :
  forall (h : Search) (message : string) (cfg : EngineConfig) (rng : Draws)
         (bestMove : string),
    Regexp.mate_line message ->
    lastEvaluation (readInfo h message) = lastEvaluation h /\
    lastDepth (readInfo h message)
    = match Regexp.match_depth message with
      | Some g => Regexp.parseInt g
      | None => lastDepth h
      end /\
    score (evaluation (engineMoveOf cfg (readInfo h message) rng bestMove))
    = lastEvaluation h /\
    confidence (evaluation (engineMoveOf cfg (readInfo h message) rng bestMove))
    = evaluateConfidence (lastEvaluation h) (lastDepth (readInfo h message)).
Proof.
  intros h message cfg rng bestMove (Hinfo & _ & Hcp).
  assert (Heval : lastEvaluation (readInfo h message) = lastEvaluation h).
  { unfold readInfo. rewrite Hinfo. simpl. now rewrite Hcp. }
  split; [exact Heval |].
  split; [unfold readInfo; now rewrite Hinfo |].
  unfold engineMoveOf; simpl. rewrite Heval. auto.
Qed.

Lemma mate_line_keeps_evaluation_witness :
  lastEvaluation
    (readInfo (freshSearch 0 ["e2e4"; "d2d4"; "g1f3"])
       "info depth 12 seldepth 14 multipv 1 score mate 3 nodes 1234 pv e2e4")
  = 0.
Proof.
  refine (proj1
    (mate_line_keeps_evaluation (freshSearch 0 ["e2e4"; "d2d4"; "g1f3"])
       "info depth 12 seldepth 14 multipv 1 score mate 3 nodes 1234 pv e2e4"
       defaultConfig {| decide := 0; choose := 0; think := 0 |} "e2e4" _)).
  split; [reflexivity |]. split; [discriminate | reflexivity].
Defined.

(** C8 as stated fails: after a line announcing mate in 3 at depth 12 the
    recorded evaluation of a fresh search is still 0, only the depth was
    read, and the move is reported in the questionable bucket, not in the
    extreme one. *)
Lemma mate_line_not_normalized :
  Regexp.mate_line
    "info depth 12 seldepth 14 multipv 1 score mate 3 nodes 1234 pv e2e4" /\
  readInfo (freshSearch 0 ["e2e4"; "d2d4"; "g1f3"])
    "info depth 12 seldepth 14 multipv 1 score mate 3 nodes 1234 pv e2e4"
  = {| promise := 0; moves := ["e2e4"; "d2d4"; "g1f3"];
       lastEvaluation := 0; lastDepth := 12 |} /\
  evaluateConfidence 0 12 = questionable /\
  evaluateConfidence 0 12 <> best.
Proof. repeat split; discriminate. Qed.

End InfoLines.

(** ** The invariant of reachable states *)

Section Invariant.

Lemma outcome_in_In (l : list (nat * Outcome)) (p : nat) (o : Outcome) :
  outcome_in l p = Some o -> In (p, o) l.
Proof.
  induction l as [| [q o'] l IH]; simpl; [discriminate |].
  destruct (Nat.eqb_spec q p) as [-> | _].
  - intros [= ->]. now left.
  - intro H. right. auto.
Qed.

Lemma outcome_in_app (l l' : list (nat * Outcome)) (p : nat) :
  outcome_in (l ++ l') p
  = match outcome_in l p with
    | Some o => Some o
    | None => outcome_in l' p
    end.
Proof.
  induction l as [| [q o] l IH]; simpl; [reflexivity |].
  now destruct (q =? p)%nat.
Qed.

Lemma timer_of_In (l : list Timer) (p : nat) (v : EngineMove) :
  timer_of l p = Some v -> exists t, In t l /\ target t = p.
Proof.
  induction l as [| t l IH]; simpl; [discriminate |].
  destruct (Nat.eqb_spec (target t) p) as [E | _].
  - intros _. exists t. auto.
  - intro H. destruct (IH H) as (t' & Hin & Ht). exists t'. auto.
Qed.

Lemma timer_of_app (l l' : list Timer) (p : nat) :
  timer_of (l ++ l') p
  = match timer_of l p with
    | Some v => Some v
    | None => timer_of l' p
    end.
Proof.
  induction l as [| t l IH]; simpl; [reflexivity |].
  now destruct (target t =? p)%nat.
Qed.

Lemma position_of_In (l : list (nat * string)) (p : nat) (fen : string) :
  position_of l p = Some fen -> In (p, fen) l.
Proof.
  induction l as [| [q f] l IH]; simpl; [discriminate |].
  destruct (Nat.eqb_spec q p) as [-> | _].
  - intros [= ->]. now left.
  - intro H. right. auto.
Qed.

Lemma wf_new (cfg : PartialConfig) : wf (new cfg).
Proof. constructor; simpl; try contradiction; try discriminate. Qed.

Lemma wf_sendCommand (c : Command) (s : State) :
  wf s -> wf (exec (sendCommand c) s).
Proof.
  intro H. unfold exec, sendCommand, modify; simpl.
  destruct (stockfish s) as [w |] eqn:E; [| exact H].
  destruct H as [Hs Ht Hw Hh Hr].
  constructor; simpl; try assumption.
  - intros w' h [= <-]. simpl. intro Hon. exact (Hh w h E Hon).
  - intros _. discriminate.
Qed.

Lemma promises_sendCommand (c : Command) (s : State) :
  promises (exec (sendCommand c) s) = promises s.
Proof.
  unfold exec, sendCommand, modify; simpl. now destruct (stockfish s).
Qed.

Lemma wf_settle (p : nat) (o : Outcome) (s : State) :
  wf s -> (p < promises s)%nat -> wf (exec (settle p o) s).
Proof.
  intros [Hs Ht Hw Hh Hr] Hp. unfold exec, settle, modify; simpl.
  destruct (outcome s p); [constructor; assumption |].
  constructor; simpl; try assumption.
  intros q o' Hin. apply in_app_or in Hin. destruct Hin as [Hin | Hin].
  - eapply Hs; eauto.
  - destruct Hin as [[= <- <-] | []]. exact Hp.
Qed.

Lemma wf_setOnMessage (h : Handler) (s : State) :
  wf s ->
  (forall c, h = OnSearch c -> (promise c < promises s)%nat) ->
  wf (snd (setOnMessage h s)).
Proof.
  intros H Hp. unfold setOnMessage.
  destruct (stockfish s) as [w |] eqn:E; simpl; [| exact H].
  destruct H as [Hs Ht Hw Hh Hr].
  constructor; simpl; try assumption.
  - intros w' c [= <-]. simpl. apply Hp.
  - intros _. discriminate.
Qed.

Lemma promises_setOnMessage (h : Handler) (s : State) :
  promises (snd (setOnMessage h s)) = promises s.
Proof. unfold setOnMessage. now destruct (stockfish s). Qed.

Lemma wf_setTimeout (p : nat) (v : EngineMove) (ms : Q) (s : State) :
  wf s -> (p < promises s)%nat -> wf (exec (setTimeout p v ms) s).
Proof.
  intros [Hs Ht Hw Hh Hr] Hp. unfold exec, setTimeout, modify; simpl.
  constructor; simpl; try assumption.
  intros t Hin. apply in_app_or in Hin. destruct Hin as [Hin | Hin].
  - auto.
  - destruct Hin as [<- | []]. exact Hp.
Qed.

Lemma wf_configureEngine (s : State) : wf s -> wf (exec configureEngine s).
Proof.
  intro H. unfold configureEngine. cbv zeta.
  rewrite exec_gets. repeat rewrite exec_seq.
  repeat apply wf_sendCommand. exact H.
Qed.

Lemma promises_configureEngine (s : State) :
  promises (exec configureEngine s) = promises s.
Proof.
  unfold configureEngine. cbv zeta.
  rewrite exec_gets. repeat rewrite exec_seq.
  now repeat rewrite promises_sendCommand.
Qed.

Lemma wf_startSearch (p : nat) (fen : string) (legalMoves : list string)
  (s : State) :
  wf s -> (p < promises s)%nat -> wf (exec (startSearch p fen legalMoves) s).
Proof.
  intros H Hp. unfold startSearch. cbv zeta.
  destruct (List.length legalMoves =? 0)%nat; [now apply wf_settle |].
  rewrite exec_seq, exec_gets, exec_bind.
  set (s1 := exec (sendCommand (Position fen)) s).
  assert (H1 : wf s1) by now apply wf_sendCommand.
  assert (Hp1 : (p < promises s1)%nat)
    by (unfold s1; now rewrite promises_sendCommand).
  set (h := OnSearch (freshSearch p legalMoves)).
  assert (H2 : wf (snd (setOnMessage h s1))).
  { apply wf_setOnMessage; [assumption |]. intros c [= <-]. exact Hp1. }
  destruct (fst (setOnMessage h s1)).
  - now apply wf_sendCommand.
  - apply wf_settle; [assumption |]. now rewrite promises_setOnMessage.
Qed.

Lemma wf_initializeEngine (loaded : bool) (s : State) :
  wf s -> wf (exec (initializeEngine loaded) s).
Proof.
  intro H. unfold initializeEngine. destruct loaded; [| exact H].
  repeat rewrite exec_seq. repeat apply wf_sendCommand.
  destruct H as [Hs Ht Hw Hh Hr].
  constructor; simpl; try assumption.
  - intros w h [= <-]. discriminate.
  - intros _. discriminate.
Qed.

Lemma wf_updateConfig (newConfig : PartialConfig) (s : State) :
  wf s -> wf (exec (updateConfig newConfig) s).
Proof.
  intro H. unfold updateConfig. rewrite exec_seq.
  apply wf_configureEngine. destruct H. now constructor.
Qed.

Lemma wf_newPromise (s : State) :
  wf s ->
  wf (snd (newPromise s)) /\
  fst (newPromise s) = promises s /\
  promises (snd (newPromise s)) = S (promises s).
Proof.
  intros [Hs Ht Hw Hh Hr]. repeat split; simpl; try assumption.
  - intros p o Hin. specialize (Hs p o Hin). lia.
  - intros t Hin. specialize (Ht t Hin). lia.
  - intros p fen Hin. specialize (Hw p fen Hin). lia.
  - intros w h Hw' Hon. specialize (Hh w h Hw' Hon). lia.
Qed.

Lemma wf_getBestMove (fen : string) (legalMoves : list string) (s : State) :
  wf s -> wf (exec (getBestMove fen legalMoves) s).
Proof.
  intro H. unfold getBestMove. rewrite exec_bind.
  destruct (wf_newPromise s H) as (H1 & Hp & Hn).
  set (s1 := snd (newPromise s)) in *. rewrite Hp.
  rewrite exec_gets, exec_seq.
  assert (H2 : wf (exec (if isReady s1
                         then startSearch (promises s) fen legalMoves
                         else modify (fun s0 =>
                                set_waiting (waiting s0 ++ [(promises s, fen)])
                                  s0)) s1)).
  { destruct (isReady s1).
    - apply wf_startSearch; [assumption | lia].
    - destruct H1 as [Hs Ht Hw Hh Hr].
      constructor; simpl; try assumption.
      intros p f Hin. apply in_app_or in Hin. destruct Hin as [Hin | Hin].
      + eauto.
      + destruct Hin as [[= <- <-] | []]. fold s1. lia. }
  exact H2.
Qed.

Lemma wf_checkReady (p : nat) (legalMoves : list string) (s : State) :
  wf s -> wf (exec (checkReady p legalMoves) s).
Proof.
  intro H. unfold checkReady. repeat rewrite exec_gets.
  destruct (position_of (waiting s) p) as [fen |] eqn:E; [| exact H].
  destruct (isReady s); [| exact H].
  rewrite exec_seq. apply wf_startSearch.
  - destruct H as [Hs Ht Hw Hh Hr].
    constructor; simpl; try assumption.
    intros q f Hin. apply filter_In in Hin. destruct Hin as [Hin _]. eauto.
  - simpl. apply position_of_In in E. destruct H as [_ _ Hw _ _]. eauto.
Qed.

Lemma wf_handleEngineMessage (message : string) (s : State) :
  wf s -> stockfish s <> None -> wf (exec (handleEngineMessage message) s).
Proof.
  intros H Hsf. unfold handleEngineMessage.
  destruct (String.eqb message "uciok"); [now apply wf_configureEngine |].
  destruct (String.eqb message "readyok"); [| exact H].
  destruct H. now constructor.
Qed.

Lemma promise_readInfo (h : Search) (message : string) :
  promise (readInfo h message) = promise h.
Proof.
  unfold readInfo. now destruct (Regexp.startsWith message "info depth").
Qed.

Lemma wf_messageHandler (h : Search) (rng : Draws) (message : string)
  (s : State) :
  wf s -> (promise h < promises s)%nat ->
  wf (exec (messageHandler h rng message) s).
Proof.
  intros H Hp. unfold messageHandler. cbv zeta.
  pose proof (promise_readInfo h message) as Hpr.
  set (h' := readInfo h message) in *.
  destruct (Regexp.startsWith message "bestmove").
  - rewrite exec_bind.
    assert (H1 : wf (snd (setOnMessage OnNull s)))
      by (apply wf_setOnMessage; [assumption | discriminate]).
    assert (Hp1 : (promise h' < promises (snd (setOnMessage OnNull s)))%nat)
      by (rewrite promises_setOnMessage, Hpr; exact Hp).
    destruct (Regexp.match_bestmove message) as [bestMove |].
    + rewrite exec_gets. now apply wf_setTimeout.
    + now apply wf_settle.
  - rewrite exec_bind. unfold exec, ret; simpl.
    apply wf_setOnMessage; [assumption |].
    intros c [= <-]. now rewrite Hpr.
Qed.

Lemma wf_deliver (message : string) (rng : Draws) (s : State) :
  wf s -> wf (exec (deliver message rng) s).
Proof.
  intro H. unfold deliver. rewrite exec_gets.
  destruct (stockfish s) as [w |] eqn:E; simpl; [| exact H].
  destruct (onmessage w) as [| | h] eqn:Eh.
  - exact H.
  - apply wf_handleEngineMessage; [assumption | congruence].
  - apply wf_messageHandler; [assumption |].
    destruct H as [_ _ _ Hh _]. eauto.
Qed.

Lemma wf_fire (p : nat) (s : State) : wf s -> wf (exec (fire p) s).
Proof.
  intro H. unfold fire. rewrite exec_gets.
  destruct (timer_of (timers s) p) as [v |] eqn:E; [| exact H].
  rewrite exec_seq. apply wf_settle.
  - destruct H as [Hs Ht Hw Hh Hr].
    constructor; simpl; try assumption.
    intros t Hin. apply filter_In in Hin. destruct Hin as [Hin _]. auto.
  - simpl. apply timer_of_In in E. destruct E as (t & Hin & <-).
    destruct H as [_ Ht _ _ _]. auto.
Qed.

Lemma step_wf (s s' : State) : wf s -> step s s' -> wf s'.
Proof.
  intros H Hstep. destruct Hstep.
  - now apply wf_initializeEngine.
  - now apply wf_updateConfig.
  - now apply wf_getBestMove.
  - now apply wf_checkReady.
  - now apply wf_deliver.
  - now apply wf_fire.
Qed.

(** Every reachable state satisfies the invariant. *)
Lemma reachable_wf (s : State) : reachable s -> wf s.
Proof.
  induction 1 as [cfg | s s' _ IH Hstep].
  - apply wf_new.
  - eapply step_wf; eauto.
Qed.

End Invariant.

(** ** A request made while another one is pending *)

Section Requests.

Local Open Scope string_scope.

Lemma bestmove_line_is_no_info (message : string) :
  Regexp.startsWith message "bestmove" = true ->
  Regexp.startsWith message "info depth" = false.
Proof.
  unfold Regexp.startsWith.
  destruct message as [| c message]; cbn [Regexp.strip_prefix].
  - discriminate.
  - destruct (Ascii.eqb_spec "b" c) as [<- | _];
      [reflexivity | discriminate].
Qed.

Lemma readInfo_bestmove (h : Search) (message : string) :
  Regexp.startsWith message "bestmove" = true -> readInfo h message = h.
Proof.
  intro H. unfold readInfo. now rewrite (bestmove_line_is_no_info _ H).
Qed.

(** On a ready engine a call for a position with legal moves posts the
    position and the search command and installs its handler. *)
Lemma getBestMove_ready (fen : string) (legalMoves : list string) (s : State)
  (w : Worker) :
  stockfish s = Some w -> isReady s = true -> legalMoves <> [] ->
  getBestMove fen legalMoves s
  = (promises s,
     {| stockfish :=
          Some {| onmessage := OnSearch (freshSearch (promises s) legalMoves);
                  posted :=
                    (posted w ++
                     [Position fen; buildSearchCommand (config s)])%list |};
        config := config s;
        isReady := true;
        promises := S (promises s);
        settled := settled s;
        timers := timers s;
        waiting := waiting s |}).
Proof.
  intros Hsf Hrdy Hne. destruct s as [sf cfg rdy n st tm wt].
  simpl in *. subst sf rdy.
  destruct legalMoves as [| m legalMoves]; [congruence |].
  cbn. now rewrite <- app_assoc.
Qed.

Lemma outcome_fresh (s : State) (p : nat) :
  wf s -> (promises s <= p)%nat -> outcome s p = None.
Proof.
  intros H Hp. unfold outcome.
  destruct (outcome_in (settled s) p) as [o |] eqn:E; [| reflexivity].
  apply outcome_in_In in E. apply (wf_settled s H) in E. lia.
Qed.

Lemma timer_fresh (s : State) (p : nat) :
  wf s -> (promises s <= p)%nat -> timer_of (timers s) p = None.
Proof.
  intros H Hp.
  destruct (timer_of (timers s) p) as [v |] eqn:E; [| reflexivity].
  apply timer_of_In in E. destruct E as (t & Hin & Ht).
  apply (wf_timers s H) in Hin. lia.
Qed.

(** What the bestmove line and the expiry of the delay do to a search that
    has just been started by [getBestMove]. *)
Lemma bestmove_then_fire (s : State) (w : Worker) (p : nat)
  (legalMoves : list string) (message bestMove : string) (rng : Draws) :
  stockfish s = Some w ->
  onmessage w = OnSearch (freshSearch p legalMoves) ->
  timer_of (timers s) p = None ->
  outcome s p = None ->
  Regexp.startsWith message "bestmove" = true ->
  Regexp.match_bestmove message = Some bestMove ->
  settled (exec (fire p) (exec (deliver message rng) s))
  = (settled s ++
     [(p, Resolved (Some (engineMoveOf (config s) (freshSearch p legalMoves)
                            rng bestMove)))])%list /\
  promises (exec (fire p) (exec (deliver message rng) s)) = promises s.
Proof.
  intros Hsf Hon Htm Hout Hstart Hmatch.
  destruct s as [sf cfg rdy n st tm wt]. simpl in *. subst sf.
  destruct w as [on po]. simpl in Hon. subst on.
  unfold deliver. rewrite exec_gets. simpl option_map. cbv iota beta.
  unfold messageHandler. cbv zeta.
  rewrite (readInfo_bestmove _ _ Hstart), Hstart, Hmatch.
  unfold fire. cbn -[engineMoveOf calculateMoveDelay timer_of filter].
  rewrite exec_gets. cbn [timers set_timers].
  rewrite timer_of_app, Htm. cbn [timer_of target value].
  rewrite Nat.eqb_refl, exec_seq.
  unfold settle, exec, modify, outcome in *.
  cbn [snd settled set_timers set_stockfish set_settled] in *.
  rewrite Hout. split; reflexivity.
Qed.

(** C1, as the code behaves: in a ready state with a pending request (any
    state satisfying the invariant [wf], which every reachable state does),
    a second [getBestMove] for a position with legal moves is accepted.  It
    returns a new promise, pending like the first one, posts its position
    and search commands and installs its own handler, which is
    a change of state; the bestmove line and the expiry of the delay then
    resolve the second request with the engine move built for it, the first
    request still being pending. *)
Theorem second_request_accepted :
  forall (s : State) (q : nat) (fen : string) (legalMoves : list string),
    wf s -> isReady s = true -> pending s q -> legalMoves <> [] ->
    let p := fst (getBestMove fen legalMoves s) in
    let s1 := exec (getBestMove fen legalMoves) s in
    p <> q /\ pending s1 p /\ pending s1 q /\
    sent s1 = (sent s ++ [Position fen; buildSearchCommand (config s)])%list /\
    option_map onmessage (stockfish s1)
    = Some (OnSearch (freshSearch p legalMoves)) /\
    s1 <> s /\
    forall (message bestMove : string) (rng : Draws),
      Regexp.startsWith message "bestmove" = true ->
      Regexp.match_bestmove message = Some bestMove ->
      let s2 := exec (fire p) (exec (deliver message rng) s1) in
      outcome s2 p
      = Some (Resolved (Some (engineMoveOf (config s)
                                (freshSearch p legalMoves) rng bestMove))) /\
      pending s2 q.
Proof.
  intros s q fen legalMoves Hwf Hrdy [Hq Hout] Hne.
  destruct (stockfish s) as [w |] eqn:Hsf;
    [| exfalso; exact (wf_ready s Hwf Hrdy Hsf)].
  cbv zeta. unfold exec.
  rewrite (getBestMove_ready fen legalMoves s w Hsf Hrdy Hne).
  cbn [fst snd].
  set (p := promises s) in *.
  set (s1 := {| stockfish := _ |}).
  assert (Hfresh : outcome s p = None)
    by (apply outcome_fresh; [exact Hwf | lia]).
  split; [lia |].
  split; [split; [simpl; lia | exact Hfresh] |].
  split; [split; [simpl; lia | exact Hout] |].
  split; [unfold sent; simpl; now rewrite Hsf |].
  split; [reflexivity |].
  split; [intro E; apply (f_equal promises) in E; simpl in E; lia |].
  intros message bestMove rng Hstart Hmatch.
  destruct (bestmove_then_fire s1 _ p legalMoves message bestMove rng
              eq_refl eq_refl) as [Hset Hprom]; try assumption.
  { simpl. apply timer_fresh; [exact Hwf | lia]. }
  fold (exec (deliver message rng) s1).
  fold (exec (fire p) (exec (deliver message rng) s1)).
  unfold pending, outcome. rewrite Hset, Hprom. simpl settled. simpl config.
  rewrite !outcome_in_app. unfold outcome in Hfresh, Hout.
  rewrite Hfresh, Hout. simpl. rewrite Nat.eqb_refl.
  split; [reflexivity |]. split; [lia |].
  destruct (Nat.eqb_spec p q); [lia | reflexivity].
Qed.

Lemma reachable_searching : reachable searching.
Proof.
  unfold searching, afterHandshake. cbv zeta.
  repeat (eapply reachable_step;
          [| first [ apply step_getBestMove | apply step_deliver ] ]).
  eapply reachable_step; [apply reachable_new |].
  apply step_initializeEngine. reflexivity.
Qed.

Lemma pending_searching : pending searching 0.
Proof. split; [apply Nat.ltb_lt |]; reflexivity. Qed.

Lemma second_request_accepted_witness :
  fst (getBestMove
         "rnbqkbnr/pppppppp/8/8/4P3/8/PPPP1PPP/RNBQKBNR b KQkq e3 0 1"
         ["e7e5"; "c7c5"; "g8f6"] searching) <> 0%nat /\
  pending
    (exec (getBestMove
             "rnbqkbnr/pppppppp/8/8/4P3/8/PPPP1PPP/RNBQKBNR b KQkq e3 0 1"
             ["e7e5"; "c7c5"; "g8f6"]) searching)
    (fst (getBestMove
            "rnbqkbnr/pppppppp/8/8/4P3/8/PPPP1PPP/RNBQKBNR b KQkq e3 0 1"
            ["e7e5"; "c7c5"; "g8f6"] searching)) /\
  pending
    (exec (getBestMove
             "rnbqkbnr/pppppppp/8/8/4P3/8/PPPP1PPP/RNBQKBNR b KQkq e3 0 1"
             ["e7e5"; "c7c5"; "g8f6"]) searching)
    0.
Proof.
  assert (Hrdy : isReady searching = true) by reflexivity.
  assert (Hne : ["e7e5"; "c7c5"; "g8f6"] <> []) by discriminate.
  destruct (second_request_accepted searching 0%nat
              "rnbqkbnr/pppppppp/8/8/4P3/8/PPPP1PPP/RNBQKBNR b KQkq e3 0 1"
              ["e7e5"; "c7c5"; "g8f6"]
              (reachable_wf searching reachable_searching)
              Hrdy pending_searching Hne)
    as (Hfresh & Hp & Hq & _).
  exact (conj Hfresh (conj Hp Hq)).
Defined.

(** C1 as stated fails: with the first search of [searching] pending, a
    second [getBestMove] yields promise 1, pending and not failed, and the
    state has changed, the position and search commands of the second call
    having been posted. *)
Lemma second_request_not_rejected :
  pending searching 0 /\
  fst (getBestMove
         "rnbqkbnr/pppppppp/8/8/4P3/8/PPPP1PPP/RNBQKBNR b KQkq e3 0 1"
         ["e7e5"; "c7c5"; "g8f6"] searching) = 1%nat /\
  outcome
    (exec (getBestMove
             "rnbqkbnr/pppppppp/8/8/4P3/8/PPPP1PPP/RNBQKBNR b KQkq e3 0 1"
             ["e7e5"; "c7c5"; "g8f6"]) searching) 1 = None /\
  exec (getBestMove
          "rnbqkbnr/pppppppp/8/8/4P3/8/PPPP1PPP/RNBQKBNR b KQkq e3 0 1"
          ["e7e5"; "c7c5"; "g8f6"]) searching <> searching /\
  sent (exec (getBestMove
                "rnbqkbnr/pppppppp/8/8/4P3/8/PPPP1PPP/RNBQKBNR b KQkq e3 0 1"
                ["e7e5"; "c7c5"; "g8f6"]) searching)
  = (sent searching ++
     [Position "rnbqkbnr/pppppppp/8/8/4P3/8/PPPP1PPP/RNBQKBNR b KQkq e3 0 1";
      GoMovetime 1000])%list.
Proof.
  split; [exact pending_searching |].
  split; [reflexivity |]. split; [reflexivity |].
  split; [| reflexivity].
  intro E. apply (f_equal promises) in E. discriminate E.
Qed.

End Requests.

(** * Further properties of the code *)

(** ** The move played and its probability *)

Section MovePlayed.

Local Open Scope Q_scope.
Local Open Scope string_scope.

Lemma Math_min_cases (a b : Q) :
  (a <= b /\ Math_min a b = a) \/ (b <= a /\ Math_min a b = b).
Proof.
  unfold Math_min. destruct (Qle_bool a b) eqn:E.
  - left. split; [now apply Qle_bool_iff | reflexivity].
  - right. split; [| reflexivity].
    apply Qlt_le_weak, Qnot_le_lt. intro H.
    apply Qle_bool_iff in H. congruence.
Qed.

(** X1: whatever the accuracy, the rating and the draws, the move
    [applyHumanLikeInaccuracy] returns is the best move or one of the legal
    moves other than it, and the engine move is flagged as deliberate
    exactly when its move is not the best move. *)
Theorem played_move_is_best_or_legal :
  forall (cfg : EngineConfig) (h : Search) (rng : Draws) (bestMove : string),
    is_draw (choose rng) ->
    let played :=
      applyHumanLikeInaccuracy cfg (decide rng) (choose rng) bestMove (moves h)
    in
    (played = bestMove \/ (In played (moves h) /\ played <> bestMove)) /\
    move (engineMoveOf cfg h rng bestMove) = played /\
    eval_move (evaluation (engineMoveOf cfg h rng bestMove)) = played /\
    (isDeliberate (engineMoveOf cfg h rng bestMove) = true <->
     played <> bestMove).
Proof.
  intros cfg h rng bestMove Hr played.
  split; [| split; [reflexivity | split; [reflexivity |]]].
  - subst played. unfold applyHumanLikeInaccuracy.
    destruct (Qle_bool 100 (accuracy cfg)); [now left |].
    destruct (Qltb (decide rng) (finalAccuracy cfg)); [now left |].
    destruct (alternativeMoves bestMove (moves h)) as [| a l] eqn:E.
    + left. unfold selectSuboptimalMove. now rewrite E.
    + right. apply alternativeMoves_In. eapply drawn_from_In.
      apply selectSuboptimalMove_drawn; [exact Hr | congruence].
  - unfold engineMoveOf; simpl. fold played.
    rewrite negb_true_iff. apply String.eqb_neq.
Qed.

Lemma played_move_is_best_or_legal_witness :
  isDeliberate
    (engineMoveOf (configOf 700 65) (freshSearch 0 ["e2e4"; "d2d4"; "g1f3"])
       {| decide := 0.9; choose := 0.5; think := 0 |} "e2e4") = true <->
  applyHumanLikeInaccuracy (configOf 700 65) 0.9 0.5 "e2e4"
    ["e2e4"; "d2d4"; "g1f3"] <> "e2e4".
Proof.
  assert (Hr : is_draw 0.5) by (split; [discriminate | reflexivity]).
  exact (proj2 (proj2 (proj2
    (played_move_is_best_or_legal (configOf 700 65)
       (freshSearch 0 ["e2e4"; "d2d4"; "g1f3"])
       {| decide := 0.9; choose := 0.5; think := 0 |} "e2e4" Hr)))).
Defined.

(** X2: for an accuracy between 0 and 100 and a rating that is not
    negative, the probability of the best move lies between 0 and 1, is at
    most accuracy/100 and at most rating/2500, and equals accuracy/100 from
    a rating of 2500 on. *)
Theorem finalAccuracy_bounds :
  forall cfg : EngineConfig,
    0 <= accuracy cfg -> accuracy cfg <= 100 -> 0 <= eloRating cfg ->
    0 <= finalAccuracy cfg /\ finalAccuracy cfg <= 1 /\
    finalAccuracy cfg <= accuracy cfg / 100 /\
    finalAccuracy cfg <= eloRating cfg / 2500 /\
    (2500 <= eloRating cfg -> finalAccuracy cfg == accuracy cfg / 100).
Proof.
  intros cfg Ha0 Ha1 He. unfold finalAccuracy. cbv zeta.
  change (accuracy cfg / 100) with (accuracy cfg * (1 # 100)).
  change (eloRating cfg / 2500) with (eloRating cfg * (1 # 2500)).
  set (a := accuracy cfg * (1 # 100)).
  set (e := eloRating cfg * (1 # 2500)).
  assert (Ha : 0 <= a /\ a <= 1) by (unfold a; split; lra).
  assert (He0 : 0 <= e) by (unfold e; lra).
  destruct (Math_min_cases e 1) as [[Hle ->] | [Hle ->]].
  - assert (H0 : 0 <= a * e) by (apply Qmult_le_0_compat; tauto).
    assert (H1 : a * e <= a * 1)
      by (rewrite !(Qmult_comm a); apply Qmult_le_compat_r; tauto).
    assert (H2 : a * e <= 1 * e) by (apply Qmult_le_compat_r; tauto).
    repeat split; try lra.
    intro H. assert (E : e == 1) by (unfold e in *; lra). rewrite E. lra.
  - repeat split; try lra.
Qed.

Lemma finalAccuracy_bounds_witness :
  finalAccuracy (config (createEngineForELO 700)) <= 700 / 2500.
Proof.
  refine (proj1 (proj2 (proj2 (proj2
    (finalAccuracy_bounds (config (createEngineForELO 700)) _ _ _)))));
    discriminate.
Defined.

(** X3: with the accuracy fixed and not negative, the probability of the
    best move does not decrease when the rating increases. *)
Theorem finalAccuracy_monotone :
  forall cfg1 cfg2 : EngineConfig,
    accuracy cfg1 = accuracy cfg2 -> 0 <= accuracy cfg1 ->
    eloRating cfg1 <= eloRating cfg2 ->
    finalAccuracy cfg1 <= finalAccuracy cfg2.
Proof.
  intros cfg1 cfg2 Hacc Ha He. unfold finalAccuracy. cbv zeta.
  rewrite <- Hacc.
  change (accuracy cfg1 / 100) with (accuracy cfg1 * (1 # 100)).
  change (eloRating cfg1 / 2500) with (eloRating cfg1 * (1 # 2500)).
  change (eloRating cfg2 / 2500) with (eloRating cfg2 * (1 # 2500)).
  set (a := accuracy cfg1 * (1 # 100)).
  assert (Ha' : 0 <= a) by (unfold a; lra).
  rewrite !(Qmult_comm a). apply Qmult_le_compat_r; [| exact Ha'].
  destruct (Math_min_cases (eloRating cfg1 * (1 # 2500)) 1) as [[? ->] | [? ->]];
    destruct (Math_min_cases (eloRating cfg2 * (1 # 2500)) 1) as [[? ->] | [? ->]];
    lra.
Qed.

Lemma finalAccuracy_monotone_witness :
  finalAccuracy (configOf 700 65) <= finalAccuracy (configOf 1500 65).
Proof.
  apply (finalAccuracy_monotone (configOf 700 65) (configOf 1500 65));
    [reflexivity | discriminate | discriminate].
Defined.

End MovePlayed.

(** ** The delay within the rating range of the controls *)

Section DelayRange.

Local Open Scope Q_scope.



(** X5: for one and the same draw a higher rating never waits longer; up to
    a rating of 2500 a larger draw never waits less; and at a rating of 2500
    the delay is the base delay of 500 ms whatever the draw. *)
Theorem calculateMoveDelay_monotone :
  forall (cfg1 cfg2 : EngineConfig) (random random' : Q),
    is_draw random -> is_draw random' ->
    eloRating cfg1 <= eloRating cfg2 ->
    calculateMoveDelay cfg2 random <= calculateMoveDelay cfg1 random /\
    (eloRating cfg1 <= 2500 -> random <= random' ->
     calculateMoveDelay cfg1 random <= calculateMoveDelay cfg1 random') /\
    (eloRating cfg1 == 2500 -> calculateMoveDelay cfg1 random == 500).
Proof.
  intros cfg1 cfg2 random random' [H0 H1] [H0' H1'] He.
  unfold calculateMoveDelay. cbv zeta.
  change (eloRating cfg1 / 2500) with (eloRating cfg1 * (1 # 2500)).
  change (eloRating cfg2 / 2500) with (eloRating cfg2 * (1 # 2500)).
  set (e1 := eloRating cfg1) in *. set (e2 := eloRating cfg2) in *.
  set (y := 0.5 + random * 0.5). set (y' := 0.5 + random' * 0.5).
  assert (Hy : 0 <= y) by (unfold y; lra).
  split; [| split].
  - assert (H : (1 - e2 * (1 # 2500)) * y <= (1 - e1 * (1 # 2500)) * y)
      by (apply Qmult_le_compat_r; [lra | exact Hy]).
    lra.
  - intros Hc Hr.
    assert (H : (1 - e1 * (1 # 2500)) * y <= (1 - e1 * (1 # 2500)) * y').
    { rewrite !(Qmult_comm (1 - e1 * (1 # 2500))).
      apply Qmult_le_compat_r; [unfold y, y'; lra | lra]. }
    lra.
  - intro E. assert (H : 1 - e1 * (1 # 2500) == 0) by lra.
    rewrite H. lra.
Qed.

Lemma calculateMoveDelay_monotone_witness :
  calculateMoveDelay (configOf 2000 85) 0.25
  <= calculateMoveDelay (configOf 1000 85) 0.25.
Proof.
  refine (proj1 (calculateMoveDelay_monotone (configOf 1000 85)
                   (configOf 2000 85) 0.25 0.5 _ _ _));
    [split; [discriminate | reflexivity]
    | split; [discriminate | reflexivity]
    | discriminate].
Defined.

End DelayRange.

(** ** The preset engines *)

Section Presets.

Local Open Scope Q_scope.

Lemma createEngineForELO_config (elo : Q) :
  config (createEngineForELO elo)
  = {| eloRating := elo; skillLevel := 10; contempt := 0; moveOverhead := 100;
       nodesPerMove := 1000000;
       timePerMove :=
         if Qltb elo 1000 then 500 else if Qltb elo 1500 then 1000
         else if Qltb elo 2000 then 1500 else 2000;
       accuracy :=
         if Qltb elo 1000 then 65 else if Qltb elo 1500 then 75
         else if Qltb elo 2000 then 85 else 92 |}.
Proof.
  unfold createEngineForELO. cbv zeta.
  destruct (Qltb elo 1000); [reflexivity |].
  destruct (Qltb elo 1500); [reflexivity |].
  destruct (Qltb elo 2000); reflexivity.
Qed.

(** X6: the engine [createEngineForELO] builds keeps the rating it is given
    and is neither ready nor loaded yet; its accuracy is one of 65, 75, 85
    and 92, so never 100, and the accuracy scaled from the rating is never
    used; it searches by time; and neither its accuracy nor its thinking
    time decreases when the rating increases. *)
Theorem createEngineForELO_presets :
  forall elo : Q,
    eloRating (config (createEngineForELO elo)) = elo /\
    isReady (createEngineForELO elo) = false /\
    stockfish (createEngineForELO elo) = None /\
    In (accuracy (config (createEngineForELO elo))) [65; 75; 85; 92] /\
    accuracy (config (createEngineForELO elo)) < 100 /\
    buildSearchCommand (config (createEngineForELO elo))
    = GoMovetime (timePerMove (config (createEngineForELO elo))) /\
    forall elo' : Q,
      elo <= elo' ->
      accuracy (config (createEngineForELO elo))
      <= accuracy (config (createEngineForELO elo')) /\
      timePerMove (config (createEngineForELO elo))
      <= timePerMove (config (createEngineForELO elo')).
Proof.
  intro elo.
  split; [now rewrite createEngineForELO_config |].
  split; [reflexivity |]. split; [reflexivity |].
  split; [| split; [| split]].
  - rewrite createEngineForELO_config. simpl.
    destruct (Qltb elo 1000); [tauto |].
    destruct (Qltb elo 1500); [tauto |].
    destruct (Qltb elo 2000); tauto.
  - rewrite createEngineForELO_config. simpl.
    destruct (Qltb elo 1000); [reflexivity |].
    destruct (Qltb elo 1500); [reflexivity |].
    destruct (Qltb elo 2000); reflexivity.
  - rewrite createEngineForELO_config. unfold buildSearchCommand. simpl.
    destruct (Qltb elo 1000); [reflexivity |].
    destruct (Qltb elo 1500); [reflexivity |].
    destruct (Qltb elo 2000); reflexivity.
  - intros elo' Hle. rewrite !createEngineForELO_config. simpl.
    split; split_Qltb; (discriminate || (exfalso; lra)).
Qed.

Lemma createEngineForELO_presets_witness :
  accuracy (config (createEngineForELO 700))
  <= accuracy (config (createEngineForELO 2200)).
Proof.
  refine (proj1
    (proj2 (proj2 (proj2 (proj2 (proj2 (proj2
       (createEngineForELO_presets 700)))))) 2200 _)).
  discriminate.
Defined.

End Presets.

(** ** Confidence and explanation *)

Section ConfidenceSign.

Local Open Scope Z_scope.
Local Open Scope string_scope.

(** X7: the confidence bucket does not look at the sign of the score, while
    the explanation does: a score and its opposite get the same bucket, and
    a score below -500 is put in the bucket "best" with the explanation
    "This might not be the best". *)
Theorem confidence_ignores_sign :
  forall (score depth : Z) (move : string),
    evaluateConfidence (- score) depth = evaluateConfidence score depth /\
    (score < -500 ->
     evaluateConfidence score depth = best /\
     generateExplanation move score = "This might not be the best").
Proof.
  intros score depth move. split.
  - unfold evaluateConfidence. now rewrite Z.abs_opp.
  - intro H. unfold evaluateConfidence, generateExplanation.
    assert (H1 : (Z.abs score >? 500) = true) by (apply Z.gtb_lt; lia).
    rewrite H1.
    repeat match goal with
           | |- context [score >? ?b] =>
               destruct (Z.gtb_spec score b); [lia |]
           end.
    split; reflexivity.
Qed.

Lemma confidence_ignores_sign_witness :
  evaluateConfidence (-600) 12 = best /\
  generateExplanation "e2e4" (-600) = "This might not be the best".
Proof.
  apply (proj2 (confidence_ignores_sign (-600) 12 "e2e4")). reflexivity.
Defined.

End ConfidenceSign.

(** ** What every turn of the event loop keeps *)

Section KeptByTurns.

Import Kept.

Lemma preserves_ret (P : State -> Prop) {A : Type} (a : A) :
  preserves P (ret a).
Proof. intros s H. exact H. Qed.

Lemma preserves_gets (P : State -> Prop) {A : Type} (f : State -> A) :
  preserves P (gets f).
Proof. intros s H. exact H. Qed.

Lemma preserves_bind (P : State -> Prop) {A B : Type} (m : M A)
  (k : A -> M B) :
  preserves P m -> (forall a, preserves P (k a)) -> preserves P (bind m k).
Proof.
  intros Hm Hk s H. unfold bind. specialize (Hm s H).
  destruct (m s) as [a s']. apply Hk. exact Hm.
Qed.

Lemma preserves_modify (P : State -> Prop) (f : State -> State) :
  (forall s, P s -> P (f s)) -> preserves P (modify f).
Proof. intros Hf s H. apply Hf, H. Qed.

(** A property that only looks at [isReady], at the presence of the worker
    and at the outcome of one promise, and that no method undoes. *)
Variable P : State -> Prop.

Hypothesis P_stockfish :
  forall s w, P s -> stockfish s <> None -> P (set_stockfish (Some w) s).
Hypothesis P_load :
  forall s w, P s -> stockfish s = None -> P (set_stockfish (Some w) s).
Hypothesis P_config : forall s c, P s -> P (set_config c s).
Hypothesis P_ready : forall s, P s -> P (set_isReady true s).
Hypothesis P_promises : forall s n, P s -> P (set_promises n s).
Hypothesis P_settle :
  forall s p o, P s -> outcome s p = None ->
                P (set_settled (settled s ++ [(p, o)]) s).
Hypothesis P_timers : forall s l, P s -> P (set_timers l s).
Hypothesis P_waiting : forall s l, P s -> P (set_waiting l s).

Lemma preserves_sendCommand (c : Command) : preserves P (sendCommand c).
Proof.
  apply preserves_modify. intros s H.
  destruct (stockfish s) eqn:E; [| exact H].
  apply P_stockfish; [exact H | congruence].
Qed.

Lemma preserves_setOnMessage (h : Handler) : preserves P (setOnMessage h).
Proof.
  intros s H. unfold setOnMessage.
  destruct (stockfish s) eqn:E; simpl; [| exact H].
  apply P_stockfish; [exact H | congruence].
Qed.

Lemma preserves_settle (p : nat) (o : Outcome) : preserves P (settle p o).
Proof.
  apply preserves_modify. intros s H.
  destruct (outcome s p) eqn:E; [exact H |]. now apply P_settle.
Qed.

Lemma preserves_configureEngine : preserves P configureEngine.
Proof.
  unfold configureEngine.
  apply preserves_bind; [apply preserves_gets | intro cfg].
  repeat (apply preserves_bind; [apply preserves_sendCommand | intros _]).
  apply preserves_sendCommand.
Qed.

Lemma preserves_startSearch (p : nat) (fen : string)
  (legalMoves : list string) :
  preserves P (startSearch p fen legalMoves).
Proof.
  unfold startSearch. cbv zeta.
  destruct (List.length legalMoves =? 0)%nat; [apply preserves_settle |].
  apply preserves_bind; [apply preserves_sendCommand | intros _].
  apply preserves_bind; [apply preserves_gets | intro cfg].
  apply preserves_bind; [apply preserves_setOnMessage | intros []].
  - apply preserves_sendCommand.
  - apply preserves_settle.
Qed.

Lemma preserves_step (s s' : State) : step s s' -> P s -> P s'.
Proof.
  intros Hstep. destruct Hstep as
    [s0 loaded Hnone | s0 newConfig | s0 fen legalMoves | s0 p legalMoves
    | s0 message rng | s0 p]; intro H.
  - unfold initializeEngine. destruct loaded; [| exact H].
    rewrite !exec_seq. repeat apply preserves_sendCommand.
    now apply P_load.
  - unfold updateConfig. rewrite exec_seq.
    apply preserves_configureEngine. now apply P_config.
  - revert s0 H. change (preserves P (getBestMove fen legalMoves)).
    unfold getBestMove.
    apply preserves_bind.
    { apply preserves_bind; [apply preserves_gets | intro p].
      apply preserves_bind; [| intros _; apply preserves_ret].
      apply preserves_modify. intros st H'. now apply P_promises. }
    intro p. apply preserves_bind; [apply preserves_gets | intro ready].
    apply preserves_bind; [| intros _; apply preserves_ret].
    destruct ready; [apply preserves_startSearch |].
    apply preserves_modify. intros st H'. now apply P_waiting.
  - revert s0 H. change (preserves P (checkReady p legalMoves)).
    unfold checkReady.
    apply preserves_bind; [apply preserves_gets | intro w].
    apply preserves_bind; [apply preserves_gets | intro ready].
    destruct (position_of w p); [| apply preserves_ret].
    destruct ready; [| apply preserves_ret].
    apply preserves_bind; [| intros _; apply preserves_startSearch].
    apply preserves_modify. intros st H'. now apply P_waiting.
  - revert s0 H. change (preserves P (deliver message rng)).
    unfold deliver.
    apply preserves_bind; [apply preserves_gets | intro w].
    destruct (option_map onmessage w) as [[| | h] |];
      try apply preserves_ret.
    + unfold handleEngineMessage.
      destruct (String.eqb message "uciok");
        [apply preserves_configureEngine |].
      destruct (String.eqb message "readyok"); [| apply preserves_ret].
      apply preserves_modify. intros st H'. now apply P_ready.
    + unfold messageHandler. cbv zeta.
      destruct (Regexp.startsWith message "bestmove").
      * apply preserves_bind; [apply preserves_setOnMessage | intros _].
        destruct (Regexp.match_bestmove message);
          [| apply preserves_settle].
        apply preserves_bind; [apply preserves_gets | intro cfg].
        apply preserves_modify. intros st H'. now apply P_timers.
      * apply preserves_bind; [apply preserves_setOnMessage | intros _].
        apply preserves_ret.
  - revert s0 H. change (preserves P (fire p)).
    unfold fire.
    apply preserves_bind; [apply preserves_gets | intro t].
    destruct (timer_of t p); [| apply preserves_ret].
    apply preserves_bind; [| intros _; apply preserves_settle].
    apply preserves_modify. intros st H'. now apply P_timers.
Qed.

End KeptByTurns.

(** ** Readiness, the worker and settled promises *)

Section NeverUndone.

Import Kept.
Local Open Scope string_scope.

Lemma worker_is_kept (s s' : State) :
  step s s' -> stockfish s <> None -> stockfish s' <> None.
Proof.
  intro Hstep.
  apply (preserves_step (fun s => stockfish s <> None)); try exact Hstep;
    intros; assumption || discriminate.
Qed.

(** X8: no turn of the event loop takes readiness back or loses the worker:
    a ready engine stays ready and a loaded worker stays loaded. *)
Theorem readiness_is_kept :
  forall s s' : State,
    step s s' ->
    (isReady s = true -> isReady s' = true) /\
    (stockfish s <> None -> stockfish s' <> None).
Proof.
  intros s s' Hstep. split.
  - apply (preserves_step (fun s => isReady s = true)); try exact Hstep;
      intros; assumption || reflexivity.
  - now apply worker_is_kept.
Qed.

Lemma readiness_is_kept_witness :
  isReady
    (exec (deliver "bestmove e2e4 ponder e7e5"
             {| decide := 0; choose := 0; think := 0 |}) searching) = true.
Proof.
  refine (proj1 (readiness_is_kept searching _ (step_deliver searching _ _)) _).
  reflexivity.
Defined.

Lemma idle_without_worker_step (s s' : State) :
  step s s' -> idle_without_worker s -> idle_without_worker s'.
Proof.
  intros Hstep Hidle.
  destruct (stockfish s) as [w |] eqn:E.
  { intro Hnone. exfalso.
    apply (worker_is_kept s s' Hstep); [congruence | exact Hnone]. }
  destruct (Hidle E) as (Hr & Hs & Ht). clear Hidle.
  destruct s as [sf cfg rdy n st tm wt]. simpl in E, Hr, Hs, Ht. subst.
  inversion Hstep as
    [s0 loaded Hnone | s0 newConfig | s0 fen legalMoves | s0 p legalMoves
    | s0 message rng | s0 p]; subst; clear Hstep.
  - destruct loaded; intro H; [discriminate H | auto].
  - intro H. cbn. auto.
  - intro H. cbn. auto.
  - intro H. unfold checkReady, exec, bind, gets, ret. simpl.
    destruct (position_of wt p); simpl; auto.
  - intro H. cbn. auto.
  - intro H. cbn. auto.
Qed.

(** X9: as long as the worker has not loaded, which is for ever when its
    import failed, the engine is not ready, no timer is armed and no request
    has been answered: every call of [getBestMove] made so far is still
    pending. *)
Theorem unloaded_engine_answers_nothing :
  forall s : State,
    reachable s -> stockfish s = None ->
    isReady s = false /\ settled s = [] /\ timers s = [] /\
    sent s = [] /\
    forall p : nat, (p < promises s)%nat -> pending s p.
Proof.
  intros s Hreach Hnone.
  assert (Hidle : idle_without_worker s).
  { clear Hnone. induction Hreach as [cfg | s s' _ IH Hstep].
    - intros _. repeat split.
    - now apply (idle_without_worker_step s s'). }
  destruct (Hidle Hnone) as (Hr & Hs & Ht).
  repeat split; try assumption.
  - unfold sent. now rewrite Hnone.
  - unfold outcome. now rewrite Hs.
Qed.

Lemma unloaded_engine_answers_nothing_witness :
  pending
    (exec (getBestMove "8/8/8/8/8/8/8/K1k5 w - - 0 1" ["a1a2"])
       (exec (initializeEngine false) (createEngineForELO 1500)))
    0.
Proof.
  refine (proj2 (proj2 (proj2 (proj2
    (unloaded_engine_answers_nothing
       (exec (getBestMove "8/8/8/8/8/8/8/K1k5 w - - 0 1" ["a1a2"])
          (exec (initializeEngine false) (createEngineForELO 1500))) _ _))))
    0%nat _).
  - eapply reachable_step; [| apply step_getBestMove].
    eapply reachable_step; [| apply step_initializeEngine; reflexivity].
    unfold createEngineForELO. cbv zeta. apply reachable_new.
  - reflexivity.
  - apply Nat.ltb_lt. reflexivity.
Defined.

End NeverUndone.

(** ** Edge cases of a request *)

Section RequestEdges.

Local Open Scope string_scope.

(** X10: on a ready engine a request for a position without legal moves is
    answered at once with null: nothing is posted, the handler in place is
    kept and no timer is armed. *)
Theorem getBestMove_without_legal_moves :
  forall (s : State) (fen : string),
    wf s -> isReady s = true ->
    let p := fst (getBestMove fen [] s) in
    let s' := exec (getBestMove fen []) s in
    p = promises s /\
    outcome s' p = Some (Resolved None) /\
    stockfish s' = stockfish s /\
    timers s' = timers s /\
    config s' = config s.
Proof.
  intros s fen Hwf Hrdy.
  pose proof (outcome_fresh s (promises s) Hwf (Nat.le_refl _)) as Hfresh.
  destruct s as [sf cfg rdy n st tm wt]. simpl in Hrdy, Hfresh. subst rdy.
  unfold outcome in Hfresh. simpl in Hfresh.
  cbv zeta. unfold exec. cbn. unfold outcome. cbn. rewrite Hfresh. cbn.
  rewrite outcome_in_app, Hfresh. cbn. rewrite Nat.eqb_refl.
  repeat split.
Qed.

Lemma getBestMove_without_legal_moves_witness :
  outcome
    (exec (getBestMove "7k/5Q2/6K1/8/8/8/8/8 b - - 0 1" []) afterHandshake)
    (fst (getBestMove "7k/5Q2/6K1/8/8/8/8/8 b - - 0 1" [] afterHandshake))
  = Some (Resolved None).
Proof.
  refine (proj1 (proj2
    (getBestMove_without_legal_moves afterHandshake
       "7k/5Q2/6K1/8/8/8/8/8 b - - 0 1" _ _))).
  - apply reachable_wf. unfold afterHandshake. cbv zeta.
    repeat (eapply reachable_step; [| apply step_deliver]).
    eapply reachable_step; [apply reachable_new |].
    apply step_initializeEngine. reflexivity.
  - reflexivity.
Defined.

(** X11: a request made before the engine is ready posts nothing and waits;
    a poll made while the engine is still not ready changes nothing; the
    poll made once it is ready starts the search, with the legal moves of
    that later moment. *)
Theorem getBestMove_waits_for_readiness :
  forall (s : State) (fen : string) (legalMoves laterMoves : list string),
    wf s -> isReady s = false ->
    let p := fst (getBestMove fen legalMoves s) in
    let s1 := exec (getBestMove fen legalMoves) s in
    p = promises s /\
    pending s1 p /\
    stockfish s1 = stockfish s /\
    position_of (waiting s1) p = Some fen /\
    exec (checkReady p laterMoves) s1 = s1 /\
    forall (s2 : State) (w : Worker),
      isReady s2 = true -> stockfish s2 = Some w ->
      position_of (waiting s2) p = Some fen -> laterMoves <> [] ->
      let s3 := exec (checkReady p laterMoves) s2 in
      sent s3
      = (sent s2 ++ [Position fen; buildSearchCommand (config s2)])%list /\
      option_map onmessage (stockfish s3)
      = Some (OnSearch (freshSearch p laterMoves)) /\
      position_of (waiting s3) p = None.
Proof.
  intros s fen legalMoves laterMoves Hwf Hrdy.
  pose proof (outcome_fresh s (promises s) Hwf (Nat.le_refl _)) as Hfresh.
  assert (Hwait : position_of (waiting s) (promises s) = None).
  { destruct (position_of (waiting s) (promises s)) as [f |] eqn:E;
      [| reflexivity].
    apply position_of_In, (wf_waiting s Hwf) in E. lia. }
  assert (Happ : forall l q f,
             position_of l q = None ->
             position_of (l ++ [(q, f)]) q = Some f).
  { induction l as [| [q' f'] l IH]; intros q f H; simpl in *.
    - now rewrite Nat.eqb_refl.
    - destruct (q' =? q)%nat; [discriminate | now apply IH]. }
  assert (Hfilter : forall l q,
             position_of
               (filter (fun e : nat * string => negb (fst e =? q)%nat) l) q
             = None).
  { induction l as [| [q' f'] l IH]; intro q; simpl; [reflexivity |].
    destruct (q' =? q)%nat eqn:E; simpl; [apply IH |].
    rewrite E. apply IH. }
  destruct s as [sf cfg rdy n st tm wt]. simpl in Hrdy, Hfresh, Hwait.
  subst rdy. cbv zeta. unfold exec. cbn.
  split; [reflexivity |].
  split; [split; [simpl; lia | exact Hfresh] |].
  split; [reflexivity |].
  split; [now apply Happ |].
  split.
  { unfold checkReady, bind, gets, ret. simpl.
    now destruct (position_of (wt ++ [(n, fen)]) n). }
  intros s2 w Hrdy2 Hsf2 Hpos Hne.
  destruct s2 as [sf2 cfg2 rdy2 n2 st2 tm2 wt2]. simpl in Hrdy2, Hsf2, Hpos.
  subst sf2 rdy2.
  destruct laterMoves as [| m laterMoves]; [congruence |].
  unfold checkReady, bind, gets, ret. simpl. rewrite Hpos.
  cbn. unfold sent. cbn. rewrite <- app_assoc.
  repeat split. apply Hfilter.
Qed.

Lemma getBestMove_waits_for_readiness_witness :
  pending
    (exec (getBestMove "8/8/8/8/8/8/8/K1k5 w - - 0 1" ["a1a2"])
       (createEngineForELO 1500))
    0.
Proof.
  refine (proj1 (proj2
    (getBestMove_waits_for_readiness (createEngineForELO 1500)
       "8/8/8/8/8/8/8/K1k5 w - - 0 1" ["a1a2"] ["a1a2"] _ _))).
  - apply reachable_wf. unfold createEngineForELO. cbv zeta.
    apply reachable_new.
  - reflexivity.
Defined.

(** X12: a bestmove line that names no move, as [bestmove (none)], answers
    the pending search with null at once: the handler is removed and no
    timer is armed. *)
Theorem bestmove_without_move :
  forall (s : State) (w : Worker) (h : Search) (message : string)
         (rng : Draws),
    stockfish s = Some w -> onmessage w = OnSearch h ->
    outcome s (promise h) = None ->
    Regexp.startsWith message "bestmove" = true ->
    Regexp.match_bestmove message = None ->
    let s' := exec (deliver message rng) s in
    outcome s' (promise h) = Some (Resolved None) /\
    option_map onmessage (stockfish s') = Some OnNull /\
    timers s' = timers s /\
    sent s' = sent s.
Proof.
  intros s w h message rng Hsf Hon Hout Hstart Hmatch.
  destruct s as [sf cfg rdy n st tm wt]. simpl in Hsf. subst sf.
  destruct w as [on po]. simpl in Hon. subst on.
  unfold outcome in Hout. simpl in Hout.
  cbv zeta. unfold deliver. rewrite exec_gets. simpl option_map.
  cbv iota beta. unfold messageHandler. cbv zeta.
  rewrite (readInfo_bestmove _ _ Hstart), Hstart, Hmatch.
  unfold exec, bind, setOnMessage, settle, modify, outcome. cbn.
  rewrite Hout. cbn. unfold outcome. cbn.
  rewrite outcome_in_app, Hout. cbn. rewrite Nat.eqb_refl.
  repeat split.
Qed.

Lemma bestmove_without_move_witness :
  outcome
    (exec (deliver "bestmove (none)" {| decide := 0; choose := 0; think := 0 |})
       searching) 0
  = Some (Resolved None).
Proof.
  refine (proj1
    (bestmove_without_move searching
       {| onmessage := OnSearch (freshSearch 0 ["e2e4"; "d2d4"; "g1f3"]);
          posted := sent searching |}
       (freshSearch 0 ["e2e4"; "d2d4"; "g1f3"]) "bestmove (none)"
       {| decide := 0; choose := 0; think := 0 |} _ _ _ _ _));
    reflexivity.
Defined.

End RequestEdges.

(** ** Lines and configuration changes during a search *)

Section DuringSearch.

Local Open Scope Q_scope.
Local Open Scope string_scope.

(** X13: a line of the worker that is none of [uciok], [readyok], an
    [info depth] line or a [bestmove] line is ignored: whatever handler is
    installed, the state is left as it was. *)
Theorem unknown_line_is_ignored :
  forall (s : State) (message : string) (rng : Draws),
    message <> "uciok" -> message <> "readyok" ->
    Regexp.startsWith message "info depth" = false ->
    Regexp.startsWith message "bestmove" = false ->
    exec (deliver message rng) s = s.
Proof.
  intros s message rng Huci Hready Hinfo Hbest.
  apply String.eqb_neq in Huci, Hready.
  destruct s as [[[on po] |] cfg rdy n st tm wt];
    unfold deliver; rewrite exec_gets; simpl option_map; cbv iota beta;
    [| reflexivity].
  destruct on as [| | h].
  - reflexivity.
  - unfold handleEngineMessage. now rewrite Huci, Hready.
  - unfold messageHandler, readInfo. cbv zeta. now rewrite Hinfo, Hbest.
Qed.

Lemma unknown_line_is_ignored_witness :
  exec (deliver "info string NNUE evaluation enabled"
          {| decide := 0; choose := 0; think := 0 |}) searching
  = searching.
Proof.
  apply (unknown_line_is_ignored searching
           "info string NNUE evaluation enabled"
           {| decide := 0; choose := 0; think := 0 |});
    (discriminate || reflexivity).
Defined.



End DuringSearch.

(** ** Scanning a line *)

Section Scanning.

Import Regexp.
Local Open Scope string_scope.

Lemma search_hit {A : Type} (m : string -> option A) (s : string) (a : A) :
  m s = Some a -> search m s = Some a.
Proof. intro H. destruct s; simpl; now rewrite H. Qed.





Lemma take_while_field (f : ascii -> bool) (ds t : string) :
  all_chars f ds = true ->
  (t = "" \/ exists c u, t = String c u /\ f c = false) ->
  take_while f (ds ++ t) = ds.
Proof.
  intros Hds Ht. induction ds as [| c ds IH]; simpl in *.
  - destruct Ht as [-> | (c & u & -> & Hc)]; simpl; [| rewrite Hc];
      reflexivity.
  - apply andb_true_iff in Hds. destruct Hds as [Hc Hds].
    rewrite Hc. f_equal. now apply IH.
Qed.

Lemma run1_field (f : ascii -> bool) (ds t : string) :
  ds <> "" -> all_chars f ds = true ->
  (t = "" \/ exists c u, t = String c u /\ f c = false) ->
  run1 f (ds ++ t) = Some ds.
Proof.
  intros Hne Hds Ht. unfold run1. rewrite take_while_field by assumption.
  destruct ds; [congruence | reflexivity].
Qed.





End Scanning.

(** ** Decimal text and parseInt *)

Section DecimalText.

Import Regexp.
Local Open Scope string_scope.
Local Open Scope Z_scope.











End DecimalText.

(** ** The info line of a search *)

Section InfoLine.

Import Regexp Candidates.
Local Open Scope string_scope.






End InfoLine.

(** ** Reading the lines of a search *)

Section ReadingLines.

Import Regexp Candidates.
Local Open Scope string_scope.
Local Open Scope Z_scope.








End ReadingLines.

(** ** The bestmove line *)

Section BestMoveLine.

Import Regexp.
Local Open Scope string_scope.

(** X17: a bestmove line gives back the move the engine printed after the
    keyword, whatever follows it (a ponder move or nothing); delivered to a
    search, it removes the handler and arms one timer that will answer the
    request with the engine move built from exactly that move text. *)
Theorem bestmove_line_round_trip :
  forall (s : State) (w : Worker) (h : Search) (rng : Draws)
         (bestMove tail : string),
    stockfish s = Some w -> onmessage w = OnSearch h ->
    bestMove <> "" -> all_chars is_word bestMove = true -> field_end tail ->
    let message := "bestmove " ++ bestMove ++ tail in
    let s' := exec (deliver message rng) s in
    match_bestmove message = Some bestMove /\
    option_map onmessage (stockfish s') = Some OnNull /\
    timers s'
    = (timers s ++
       [{| delay := calculateMoveDelay (config s) (think rng);
           target := promise h;
           value := engineMoveOf (config s) h rng bestMove |}])%list /\
    settled s' = settled s.
Proof.
  intros s w h rng bestMove tail Hsf Hon Hne Hword Htail message.
  assert (Hstart : startsWith message "bestmove" = true) by reflexivity.
  assert (Hmatch : match_bestmove message = Some bestMove).
  { subst message. unfold match_bestmove, capture_after.
    apply search_hit. cbn [append strip_prefix Ascii.eqb Bool.eqb].
    apply run1_field; [assumption | assumption |].
    destruct Htail as [-> | (rest & ->)]; [now left | right].
    exists " "%char, rest. now split. }
  split; [exact Hmatch |].
  destruct s as [sf cfg rdy n st tm wt]. simpl in Hsf. subst sf.
  destruct w as [on po]. simpl in Hon. subst on.
  cbv zeta. unfold deliver. rewrite exec_gets. simpl option_map.
  cbv iota beta. unfold messageHandler. cbv zeta.
  rewrite (readInfo_bestmove _ _ Hstart), Hstart, Hmatch.
  repeat split.
Qed.

Lemma bestmove_line_round_trip_witness :
  match_bestmove ("bestmove " ++ "e7e8q" ++ " ponder g7g6") = Some "e7e8q".
Proof.
  refine (proj1
    (bestmove_line_round_trip searching
       {| onmessage := OnSearch (freshSearch 0 ["e2e4"; "d2d4"; "g1f3"]);
          posted := sent searching |}
       (freshSearch 0 ["e2e4"; "d2d4"; "g1f3"])
       {| decide := 0; choose := 0; think := 0 |}
       "e7e8q" " ponder g7g6" _ _ _ _ _));
    try reflexivity; [discriminate | right; eexists; reflexivity].
Defined.

End BestMoveLine.

(** ** The training log *)

Section TrainingLog.

Import TrainingLogs.

(** X18: the five counters of the statistics split the log: every entry is
    counted by exactly one of them, so that they add up to the number of
    entries; "Total Moves" counts only the entries of type [move]. *)
Theorem stats_split_the_log :
  forall logs : list LogEntry,
    (totalMoves (stats logs) + blunders (stats logs) + mistakes (stats logs)
     + inaccuracies (stats logs) + goodMoves (stats logs))%nat
    = List.length logs /\
    totalMoves (stats logs) = count TrainingLogs.move logs.
Proof.
  intro logs. split; [| reflexivity].
  unfold stats, count. simpl.
  induction logs as [| log logs IH]; [reflexivity |].
  simpl. destruct (entryType log); simpl; lia.
Qed.




(** X20: the log panel lists at most 50 entries, as many as the caption
    "Showing last min(50, n) of n" says, namely the last ones logged, the
    most recent first: the entry in place i of the panel is the entry in
    place n - 1 - i of the log. *)
Theorem recentLogs_are_the_last :
  forall (logs : list LogEntry) (i : nat),
    List.length (recentLogs logs) = Nat.min 50 (List.length logs) /\
    ((i < Nat.min 50 (List.length logs))%nat ->
     nth_error (recentLogs logs) i
     = nth_error logs (List.length logs - 1 - i)) /\
    ((List.length logs <= 50)%nat -> recentLogs logs = rev logs).
Proof.
  intros logs i. unfold recentLogs.
  assert (Hlen : List.length (skipn (List.length logs - 50) logs)
                 = Nat.min 50 (List.length logs))
    by (rewrite length_skipn; lia).
  split; [now rewrite length_rev |]. split.
  - intro Hi. rewrite nth_error_rev, Hlen.
    destruct (Nat.ltb_spec i (Nat.min 50 (List.length logs))); [| lia].
    rewrite nth_error_skipn. f_equal. lia.
  - intro H. replace (List.length logs - 50)%nat with 0%nat by lia.
    reflexivity.
Qed.

Lemma recentLogs_are_the_last_witness :
  nth_error
    (recentLogs
       [{| moveNumber := 1; player := white; entryMove := "e2e4";
           san := "e4"; entryEvaluation := Some 30%Z;
           entryType := TrainingLogs.good; entryExplanation := None;
           engineSuggestion := None; wasDeliberate := None |};
        {| moveNumber := 1; player := engine; entryMove := "e7e5";
           san := "e5"; entryEvaluation := Some 25%Z;
           entryType := TrainingLogs.move; entryExplanation := None;
           engineSuggestion := None; wasDeliberate := Some false |}])
    0
  = Some {| moveNumber := 1; player := engine; entryMove := "e7e5";
            san := "e5"; entryEvaluation := Some 25%Z;
            entryType := TrainingLogs.move; entryExplanation := None;
            engineSuggestion := None; wasDeliberate := Some false |}.
Proof.
  refine (proj1 (proj2 (recentLogs_are_the_last _ 0%nat)) _).
  simpl. lia.
Defined.

End TrainingLog.

(** ** Squares and coordinates *)

Section Squares.

Import ChessUtils.
Local Open Scope string_scope.
Local Open Scope Z_scope.

Lemma In_by_eqb (s : string) (l : list string) :
  existsb (String.eqb s) l = true -> In s l.
Proof.
  intro H. apply existsb_exists in H. destruct H as (x & Hin & Heq).
  apply String.eqb_eq in Heq. now subst.
Qed.

Lemma incl_by_eqb (l l' : list string) :
  forallb (fun s => existsb (String.eqb s) l') l = true -> incl l l'.
Proof.
  intros H s Hin. apply In_by_eqb.
  now apply (proj1 (forallb_forall _ l) H).
Qed.

Lemma board_index_cases (n : Z) :
  0 <= n <= 7 ->
  n = 0 \/ n = 1 \/ n = 2 \/ n = 3 \/ n = 4 \/ n = 5 \/ n = 6 \/ n = 7.
Proof. lia. Qed.

Lemma coordsToSquare_on_board (file rank : Z) :
  0 <= file <= 7 -> 0 <= rank <= 7 ->
  squareToCoords (coordsToSquare file rank)
  = {| file := Some file; rank := Some rank |} /\
  In (coordsToSquare file rank) boardSquares.
Proof.
  intros Hf Hr.
  destruct (board_index_cases file Hf)
    as [-> | [-> | [-> | [-> | [-> | [-> | [-> | ->]]]]]]];
    destruct (board_index_cases rank Hr)
      as [-> | [-> | [-> | [-> | [-> | [-> | [-> | ->]]]]]]];
    (split; [reflexivity | apply In_by_eqb; reflexivity]).
Qed.

Lemma boardSquares_checked :
  forallb
    (fun sq =>
       match squareToCoords sq with
       | {| file := Some f; rank := Some r |} =>
           (0 <=? f) && (f <=? 7) && (0 <=? r) && (r <=? 7)
           && String.eqb (coordsToSquare f r) sq
       | _ => false
       end)
    boardSquares = true.
Proof. vm_compute. reflexivity. Qed.

(** X21: on the board the two conversions are inverse of each other: the
    name of the square of file and rank 0 to 7 is one of the 64 squares and
    is read back as that file and rank, and every one of the 64 squares is
    the name of the coordinates read from it; only the first two characters
    of a name are read. *)
Theorem coords_round_trip :
  (forall file rank : Z,
      0 <= file <= 7 -> 0 <= rank <= 7 ->
      squareToCoords (coordsToSquare file rank)
      = {| file := Some file; rank := Some rank |} /\
      In (coordsToSquare file rank) boardSquares) /\
  (forall sq : string,
      In sq boardSquares ->
      exists file rank : Z,
        0 <= file <= 7 /\ 0 <= rank <= 7 /\
        squareToCoords sq = {| file := Some file; rank := Some rank |} /\
        coordsToSquare file rank = sq) /\
  (forall (a b : ascii) (rest : string),
      squareToCoords (String a (String b rest))
      = squareToCoords (String a (String b ""))).
Proof.
  split; [exact coordsToSquare_on_board |]. split; [| reflexivity].
  intros sq Hin.
  pose proof (proj1 (forallb_forall _ _) boardSquares_checked sq Hin) as H.
  cbv beta in H.
  destruct (squareToCoords sq) as [[f |] [r |]]; try discriminate H.
  exists f, r.
  repeat (apply andb_true_iff in H; destruct H as [H ?]).
  repeat match goal with
         | H : (_ <=? _) = true |- _ => apply Z.leb_le in H
         | H : String.eqb _ _ = true |- _ => apply String.eqb_eq in H
         end.
  repeat split; assumption.
Qed.

Lemma coords_round_trip_witness :
  squareToCoords (coordsToSquare 4 3) = {| file := Some 4; rank := Some 3 |}.
Proof.
  refine (proj1 (proj1 coords_round_trip 4 3 _ _)); lia.
Defined.

Lemma flat_map_filter {A B : Type} (p : B -> bool) (g : A -> list B)
  (l : list A) :
  flat_map (fun x => filter p (g x)) l = filter p (flat_map g l).
Proof.
  induction l as [| x l IH]; simpl; [reflexivity |].
  now rewrite filter_app, IH.
Qed.

Lemma flat_map_singletons {A B : Type} (p : B -> bool) (g : A -> B)
  (l : list A) :
  flat_map (fun x => if p (g x) then [g x] else []) l
  = filter p (flat_map (fun x => if true then [g x] else []) l).
Proof.
  induction l as [| x l IH]; simpl; [reflexivity |].
  rewrite IH. now destruct (p (g x)).
Qed.

(** The squares in the order [getAttackedSquares] visits them. *)
Lemma getAttackedSquares_filter (isAttacked : string -> bool) :
  getAttackedSquares isAttacked
  = filter isAttacked (getAttackedSquares (fun _ => true)).
Proof.
  unfold getAttackedSquares. cbv beta zeta.
  rewrite <- flat_map_filter. apply flat_map_ext. intro rank.
  apply (flat_map_singletons isAttacked
           (fun file : nat =>
              fromCharCode (97 + Z.of_nat file) ++ toString (8 - Z.of_nat rank))).
Qed.

Lemma visited_squares_NoDup : NoDup (getAttackedSquares (fun _ => true)).
Proof.
  assert (E : nodup string_dec (getAttackedSquares (fun _ => true))
              = getAttackedSquares (fun _ => true))
    by (vm_compute; reflexivity).
  rewrite <- E. apply NoDup_nodup.
Qed.

Lemma visited_squares_are_the_board (sq : string) :
  In sq (getAttackedSquares (fun _ => true)) <-> In sq boardSquares.
Proof.
  split; apply incl_by_eqb; vm_compute; reflexivity.
Qed.

(** X22: [getAttackedSquares] returns exactly the squares of the board that
    the rules report as attacked, each of them once. *)
Theorem getAttackedSquares_exact :
  forall (isAttacked : string -> bool) (sq : string),
    (In sq (getAttackedSquares isAttacked) <->
     In sq boardSquares /\ isAttacked sq = true) /\
    NoDup (getAttackedSquares isAttacked) /\
    (List.length (getAttackedSquares isAttacked) <= 64)%nat.
Proof.
  intros isAttacked sq. rewrite getAttackedSquares_filter.
  split; [| split].
  - rewrite filter_In, visited_squares_are_the_board. reflexivity.
  - apply NoDup_filter, visited_squares_NoDup.
  - eapply Nat.le_trans; [apply filter_length_le |].
    vm_compute. repeat constructor.
Qed.

End Squares.

(** ** The square under the pointer *)

Section Pointer.

Import ChessUtils ChessBoard.
Local Open Scope Q_scope.











End Pointer.

(** ** The labels of the controls *)

Section Labels.

Import TrainingControls.
Local Open Scope Q_scope.
Local Open Scope string_scope.

Lemma getEloDescription_of_level (elo : Q) :
  getEloDescription elo
  = match calculateSkillLevel elo with
    | 0%Z => "Beginner"
    | 2%Z | 4%Z => "Novice"
    | 6%Z | 8%Z => "Intermediate"
    | 10%Z | 12%Z => "Advanced"
    | 15%Z | 18%Z => "Expert"
    | _ => "Master"
    end.
Proof.
  unfold getEloDescription, calculateSkillLevel.
  split_Qltb; try reflexivity; exfalso; lra.
Qed.

(** X25: the label shown beside the rating follows the bands of the skill
    level: two ratings that get the same skill level get the same label,
    "Beginner" goes with skill level 0 and "Master" with skill level 20. *)
Theorem getEloDescription_follows_skill_level :
  forall elo elo' : Q,
    (calculateSkillLevel elo = calculateSkillLevel elo' ->
     getEloDescription elo = getEloDescription elo') /\
    (getEloDescription elo = "Beginner" <-> calculateSkillLevel elo = 0%Z) /\
    (getEloDescription elo = "Master" <-> calculateSkillLevel elo = 20%Z).
Proof.
  intros elo elo'. rewrite !getEloDescription_of_level.
  split; [now intros -> |].
  unfold calculateSkillLevel.
  split; split_Qltb; split; intro Hsame; (reflexivity || discriminate Hsame).
Qed.

Lemma getEloDescription_follows_skill_level_witness :
  getEloDescription 1000 = getEloDescription 1150.
Proof.
  apply (proj1 (getEloDescription_follows_skill_level 1000 1150)).
  reflexivity.
Defined.

(** X26: from an accuracy of 95 on the label reads "Perfect Play (No
    mistakes)", but only an accuracy of 100 rules substitutes out: below
    100, every draw at or above accuracy/100 makes the engine play a move
    other than the best one, whatever the rating, as soon as another legal
    move exists. *)
Theorem perfect_play_label_below_100 :
  forall (cfg : EngineConfig) (randomFactor random : Q) (bestMove : string)
         (legalMoves : list string),
    95 <= accuracy cfg -> accuracy cfg < 100 ->
    accuracy cfg / 100 <= randomFactor -> is_draw random ->
    (exists m, In m legalMoves /\ m <> bestMove) ->
    getAccuracyDescription (accuracy cfg) = "Perfect Play (No mistakes)" /\
    applyHumanLikeInaccuracy cfg randomFactor random bestMove legalMoves
    <> bestMove.
Proof.
  intros cfg randomFactor random bestMove legalMoves H95 H100 Hdraw Hr Halt.
  split.
  - unfold getAccuracyDescription. split_Qltb; try reflexivity; exfalso; lra.
  - unfold applyHumanLikeInaccuracy.
    destruct (Qle_bool 100 (accuracy cfg)) eqn:E.
    { apply Qle_bool_iff in E. exfalso. lra. }
    assert (Hfa : finalAccuracy cfg <= accuracy cfg / 100).
    { unfold finalAccuracy. cbv zeta.
      change (accuracy cfg / 100) with (accuracy cfg * (1 # 100)) in *.
      set (a := accuracy cfg * (1 # 100)) in *.
      assert (Ha : 0 <= a) by (unfold a; lra).
      destruct (Math_min_cases (eloRating cfg / 2500) 1) as [[Hle ->] | [_ ->]];
        [| lra].
      rewrite <- (Qmult_1_r a) at 2. rewrite !(Qmult_comm a).
      apply Qmult_le_compat_r; assumption. }
    destruct (QltbP randomFactor (finalAccuracy cfg)) as [Hlt | _];
      [exfalso; lra |].
    now apply selectSuboptimalMove_other.
Qed.

Lemma perfect_play_label_below_100_witness :
  getAccuracyDescription (accuracy (configOf 2500 95))
  = "Perfect Play (No mistakes)" /\
  applyHumanLikeInaccuracy (configOf 2500 95) 0.97 0 "e2e4" ["e2e4"; "d2d4"]
  <> "e2e4".
Proof.
  apply (perfect_play_label_below_100 (configOf 2500 95) 0.97 0 "e2e4"
           ["e2e4"; "d2d4"]);
    try discriminate; try reflexivity.
  - split; [discriminate | reflexivity].
  - exists "d2d4". split; [simpl; tauto | discriminate].
Defined.

End Labels.
